(** * The RSS backend of Perceval (perceval/backends/core/rss.py)

    A shallow embedding of the [RSS] connector, of its HTTP client and of
    the generators [fetch] and [fetch_from_cache], followed by the
    properties of the connector's contract.

    Conventions.
    - Code that mutates the connector or talks to the outside world lives in
      the monad [M]: a state monad over [World] that can raise a Python
      exception.  The state survives a raise, as the attributes of a Python
      object do.
    - A Python generator is a frame (the program point at which it is
      suspended, together with its live local variables) and a [next]
      function that resumes the frame up to the following [yield].
    - The libraries the module imports ([requests], [feedparser],
      [dateutil]) are parameters of the development.
    - A Python float is a binary64 number, written with the [spec_float] of
      the Standard Library; a Python integer is a [Z]. *)

From stdpp Require Import base option list strings gmap.
From Stdlib Require Import ZArith QArith Qpower Qabs Lqa SpecFloat.

Local Open Scope Z_scope.
Local Open Scope string_scope.

(** ** Exceptions and results *)

Inductive exn : Type :=
| KeyError (key : string)
| InvalidDateError (date : string)
| CacheError (cause : string)
| HTTPError (status_code : Z)
| ConnectionError
| StopIteration
| RuntimeError (msg : string)
| ValueError
| OverflowError
| ZeroDivisionError.

Inductive result (A : Type) : Type :=
| Ok (a : A)
| Raise (e : exn).
Arguments Ok {A} a.
Arguments Raise {A} e.

#[global] Instance result_ret : MRet result := fun _ a => Ok a.
#[global] Instance result_bind : MBind result := fun _ _ f r =>
  match r with
  | Ok a => f a
  | Raise e => Raise e
  end.

(** ** Data model *)

(** The unparsed body of one HTTP response, or of one cached record. *)
Abbreviation RawPayload := string (only parsing).

(** One feed entry as [feedparser] decodes it: a dictionary from field
    names to text. *)
Abbreviation Entry := (gmap string string) (only parsing).

(** The value of [feedparser.parse(...)]; the connector reads only its
    ['entries'] key. *)
Record FeedDocument : Type := { entries : list Entry }.

(** [item[key]] on a dictionary. *)
Definition getitem (item : Entry) (key : string) : result string :=
  match item !! key with
  | Some v => Ok v
  | None => Raise (KeyError key)
  end.

(** What [requests.get] can report: no connection, or a response. *)
Record Response : Type := { status_code : Z; text : string }.

Inductive HttpResult : Type :=
| NoConnection
| Responded (req : Response).

(** A date-time as the date parser returns it: the reading of the wall
    clock, counted in microseconds from 1970-01-01T00:00:00 on that same
    clock, and the offset of that clock from Universal Time in seconds
    ([None] for a naive date-time, one without a time zone). *)
Record datetime : Type := { wall_us : Z; utcoffset : option Z }.

(** A date-time that has a time zone: the reading of the wall clock, in
    microseconds as in [datetime], and the offset of the zone from
    Universal Time in seconds. *)
Record aware_datetime : Type := { clock_us : Z; offset : Z }.

(** [datetime.min] and [datetime.max], the bounds of every date-time of
    the runtime: 0001-01-01T00:00:00 and 9999-12-31T23:59:59.999999, as
    readings of the wall clock. *)
Definition datetime_min : Z := -62135596800000000.
Definition datetime_max : Z := 253402300799999999.

(** ** Floats *)

(** The integer nearest to [n / d], for [d] positive; of two integers
    that are as near, the even one. *)
Definition round_half_even (n d : Z) : Z :=
  let q := n / d in
  match 2 * (n mod d) ?= d with
  | Lt => q
  | Gt => q + 1
  | Eq => if Z.even q then q else q + 1
  end.

(** The fraction [n / (d * 2 ^ e)] written with integers, for any sign of
    [e]. *)
Definition scale (n d e : Z) : Z * Z :=
  (n * 2 ^ Z.max 0 (- e), d * 2 ^ Z.max 0 e).

(** The exponent [l] with [2 ^ l <= n / d < 2 ^ (l + 1)], for [n] and [d]
    positive. *)
Definition log2_quotient (n d : Z) : Z :=
  let k := Z.log2 n - Z.log2 d in
  let '(n', d') := scale n d k in
  if (d' <=? n')%Z then k else k - 1.

(** [a / b] on Python integers: the quotient is rounded once, to the
    nearest binary64 number (53 bits of mantissa, exponents from -1074),
    ties to the even mantissa.  A quotient that rounds beyond the largest
    float raises [OverflowError], a zero divisor [ZeroDivisionError]. *)
Definition true_divide (a b : Z) : result spec_float :=
  if (b =? 0)%Z then Raise ZeroDivisionError
  else
    let s := xorb (a <? 0)%Z (b <? 0)%Z in
    let n := Z.abs a in
    let d := Z.abs b in
    if (n =? 0)%Z then Ok (S754_zero s)
    else
      let e := Z.max (log2_quotient n d - 52) (-1074) in
      let '(n', d') := scale n d e in
      let m := round_half_even n' d' in
      let '(m, e) := if (m =? 2 ^ 53)%Z then (2 ^ 52, e + 1) else (m, e) in
      if (m =? 0)%Z then Ok (S754_zero s)
      else if (971 <? e)%Z then Raise OverflowError
      else Ok (S754_finite s (Z.to_pos m) e).

(** Modelled from the spec: the cache of the host framework (class [Cache],
    not part of rss.py).  It holds the committed records in storage order;
    [store] commits staged records durably, [retrieve] is the lazy sequence
    of the records in storage order. *)
Record Cache : Type := { records : list RawPayload }.

Definition store (c : Cache) (staged : list RawPayload) : Cache :=
  {| records := records c ++ staged |}.

Definition retrieve (c : Cache) : list RawPayload := records c.

(** [RSSClient]: the client is bound to one URL. *)
Record RSSClient : Type := { client_url : string }.

(** The connector.  [url], [tag] and [client] are set by [__init__];
    [cache] and [cache_queue] belong to the base class [Backend]. *)
Record RSS : Type := {
  url : string;
  tag : string;
  cache : option Cache;
  cache_queue : list RawPayload;
  client : RSSClient
}.

(** [version = '0.1.0'] *)
Definition version : string := "0.1.0".

(** The class name, as [self.__class__.__name__] gives it. *)
Definition class_name : string := "RSS".

(** Modelled from the spec: [Backend.__init__] (not part of rss.py); the
    tag defaults to the origin, which is the URL, and the queue of staged
    cache writes starts empty. *)
Definition Backend_init (origin : string) (tag : option string)
    (cache : option Cache) : string * option Cache * list RawPayload :=
  (default origin tag, cache, []).

(** [RSS.__init__(self, url, tag=None, cache=None)] *)
Definition RSS_init (url : string) (tag : option string)
    (cache : option Cache) : RSS :=
  let origin := url in
  let '(t, c, q) := Backend_init origin tag cache in
  {| url := url; tag := t; cache := c; cache_queue := q;
     client := {| client_url := url |} |}.

(** ** Effects *)

Inductive log_record : Type :=
| LookingForEntries (feed : string)
| TotalEntries (nentries : nat).

(** What the connector does, oldest first.  [EvGet] is a call of
    [requests.get] by the client.  What a library does inside a call (the
    redirects [requests.get] follows, the URL or the file that
    [feedparser.parse] opens when it is handed one instead of the text of
    a feed) leaves no event. *)
Inductive event : Type :=
| EvLog (r : log_record)
| EvPurge
| EvGet (target : string)
| EvPush (payload : RawPayload)
| EvFlush (staged : list RawPayload)
| EvRetrieve.

Record World : Type := { self : RSS; trace : list event }.

Definition M (A : Type) : Type := World → result A * World.

#[global] Instance M_ret : MRet M := fun _ a w => (Ok a, w).
#[global] Instance M_bind : MBind M := fun _ _ f c w =>
  match c w with
  | (Ok a, w') => f a w'
  | (Raise e, w') => (Raise e, w')
  end.
#[global] Instance M_throw : MThrow exn M := fun _ e w => (Raise e, w).

Definition get_self : M RSS := fun w => (Ok (self w), w).

Definition set_self (s : RSS) : M unit :=
  fun w => (Ok tt, {| self := s; trace := trace w |}).

Definition emit (ev : event) : M unit :=
  fun w => (Ok tt, {| self := self w; trace := trace w ++ [ev] |}).

Definition lift_result {A : Type} (r : result A) : M A :=
  fun w => (r, w).

(** [logger.info(...)] *)
Definition logger_info (r : log_record) : M unit := emit (EvLog r).

Definition set_cache_queue (s : RSS) (q : list RawPayload) : RSS :=
  {| url := url s; tag := tag s; cache := cache s; cache_queue := q;
     client := client s |}.

Definition set_cache (s : RSS) (c : option Cache) : RSS :=
  {| url := url s; tag := tag s; cache := c; cache_queue := cache_queue s;
     client := client s |}.

(** ** The cache queue of the base class *)

(** Modelled from the spec: [Backend._purge_cache_queue] (not part of
    rss.py) discards any not yet committed writes. *)
Definition _purge_cache_queue : M unit :=
  s ← get_self;
  emit EvPurge;;
  set_self (set_cache_queue s []).

(** Modelled from the spec: [Backend._push_cache_queue] (not part of
    rss.py) stages one raw record, only if a cache is configured. *)
Definition _push_cache_queue (item : RawPayload) : M unit :=
  s ← get_self;
  match cache s with
  | Some _ =>
      emit (EvPush item);;
      set_self (set_cache_queue s (cache_queue s ++ [item]))
  | None => mret tt
  end.

(** Modelled from the spec: [Backend._flush_cache_queue] (not part of
    rss.py) commits the staged records durably; nothing stays staged. *)
Definition _flush_cache_queue : M unit :=
  s ← get_self;
  match cache s with
  | Some c =>
      emit (EvFlush (cache_queue s));;
      set_self (set_cache_queue (set_cache s (Some (store c (cache_queue s)))) [])
  | None => mret tt
  end.

(** ** Python generators *)

(** The outcome of one [next(gen)]. *)
Inductive step (A : Type) : Type :=
| Yielded (a : A)
| Exhausted
| Raised (e : exn).
Arguments Yielded {A} a.
Arguments Exhausted {A}.
Arguments Raised {A} e.

(** A [StopIteration] that escapes the body of a generator reaches the
    caller as a [RuntimeError] (PEP 479); any other exception passes. *)
Definition generator_raise (e : exn) : exn :=
  match e with
  | StopIteration => RuntimeError "generator raised StopIteration"
  | _ => e
  end.

(** Runs the body of a generator from the point where it is suspended.
    The body ends at a [yield], by returning, or by raising; in the last
    two cases the generator is closed for good. *)
Definition resume {A F : Type} (closed : F) (body : M (step A * F))
    : World → step A * F * World :=
  fun w =>
    match body w with
    | (Ok (s, f), w') => (s, f, w')
    | (Raise e, w') => (Raised (generator_raise e), closed, w')
    end.

(** [next(iterator)] on a sequence that is already there. *)
Definition py_next {A : Type} (l : list A) : result A :=
  match l with
  | x :: _ => Ok x
  | [] => Raise StopIteration
  end.

(** How an iteration over a generator ended. *)
Inductive ending : Type :=
| Completed
| Failed (e : exn)
| Pending.

(** The caller's loop [for x in gen]: it calls [next] until the generator
    is exhausted or raises, at most [fuel] times, and collects what was
    yielded. *)
Fixpoint consume {A F : Type} (next : F → World → step A * F * World)
    (fuel : nat) (f : F) (w : World) : list A * ending * World :=
  match fuel with
  | O => ([], Pending, w)
  | S fuel' =>
      match next f w with
      | (Yielded a, f', w') =>
          let '(l, e, w'') := consume next fuel' f' w' in (a :: l, e, w'')
      | (Exhausted, _, w') => ([], Completed, w')
      | (Raised e, _, w') => ([], Failed e, w')
      end
  end.

(** ** The connector *)

(** An item as the host framework emits it.

    Modelled from the spec: the item contract of the host framework (the
    decorator [metadata] is not part of rss.py): every emitted item is
    wrapped with id, updated_on, category, backend name and version,
    origin (the feed URL), tag and the raw entry. *)
Record Item : Type := {
  item_id : string;
  item_updated_on : spec_float;
  item_category : string;
  item_backend_name : string;
  item_backend_version : string;
  item_origin : string;
  item_tag : string;
  item_raw_data : Entry
}.

(** The classes whose class methods are called. *)
Inductive class : Type := RSS_class.

Definition class_of (s : RSS) : class := RSS_class.

(** [RSS.has_caching(cls)] *)
Definition has_caching (cls : class) : bool := true.

(** [RSS.has_resuming(cls)] *)
Definition has_resuming (cls : class) : bool := false.

(** [RSS.metadata_id(item)]: [str(item['link'])]; the link is text
    already. *)
Definition metadata_id (item : Entry) : result string :=
  link ← getitem item "link";
  mret link.

(** [RSS.metadata_category(item)] *)
Definition metadata_category (item : Entry) : string := "entry".

(** The program points at which the body of [RSS.fetch] can be suspended:
    before its first statement, at the [yield] of the loop (with the entries
    still to come and the counter), and after its end. *)
Inductive fetch_frame : Type :=
| FetchCreated
| FetchYielded (rest : list Entry) (nentries : nat)
| FetchClosed.

(** The same for [RSS.fetch_from_cache]. *)
Inductive cache_frame : Type :=
| CacheCreated
| CacheYielded (rest : list Entry)
| CacheClosed.

(** The frames of a generator that [metadata] wraps around the generator
    with frames [F]. *)
Inductive meta_frame (F : Type) : Type :=
| MetaCreated
| MetaIterating (inner : F)
| MetaClosed.
Arguments MetaCreated {F}.
Arguments MetaIterating {F} inner.
Arguments MetaClosed {F}.

(** The libraries the module imports, and the machine it runs on. *)
Class Libraries : Type := {
  (** The network, as [requests.get] sees it. *)
  server : string → HttpResult;
  (** [feedparser.parse], as a function of the text it is handed. *)
  feedparser_parse : RawPayload → FeedDocument;
  (** [dateutil.parser.parse]; [None] when it rejects the string. *)
  dateutil_parse : string → option datetime;
  (** A date-time of the runtime lies between [datetime.min] and
      [datetime.max]. *)
  dateutil_range : ∀ s dt,
    dateutil_parse s = Some dt →
    (datetime_min ≤ wall_us dt ≤ datetime_max)%Z
}.

Section Connector.

Context {libs : Libraries}.

(** *** The HTTP client *)

(** [requests.get(url)] *)
Definition requests_get (target : string) : M Response :=
  emit (EvGet target);;
  match server target with
  | Responded req => mret req
  | NoConnection => mthrow ConnectionError
  end.

(** [Response.raise_for_status()]: client errors (4xx) and server errors
    (5xx) raise. *)
Definition raise_for_status (req : Response) : M unit :=
  if bool_decide (400 ≤ status_code req < 600)
  then mthrow (HTTPError (status_code req))
  else mret tt.

(** [RSSClient.get_entries(self)] *)
Definition get_entries (c : RSSClient) : M RawPayload :=
  req ← requests_get (client_url c);
  raise_for_status req;;
  mret (text req).

(** *** Dates *)

(** Modelled from the spec: [str_to_datetime] of the framework's utilities
    (not part of rss.py) parses a date-time string and fails with a parse
    error on an unrecognized format.  The spec is silent on a date-time
    without a time zone; it is given Universal Time here, so that every
    date-time it returns has a zone. *)
Definition str_to_datetime (ts : string) : result aware_datetime :=
  match dateutil_parse ts with
  | Some dt =>
      Ok {| clock_us := wall_us dt; offset := default 0 (utcoffset dt) |}
  | None => Raise (InvalidDateError ts)
  end.

(** [datetime.timestamp()] on a date-time with a zone:
    [(self - EPOCH).total_seconds()], the epoch being 1970-01-01T00:00:00
    in Universal Time.  The subtraction asks the zone for its offset,
    which raises [ValueError] unless the offset lies strictly within 24
    hours, and takes it off the wall clock; [total_seconds] divides the
    microseconds of the difference by [10 ** 6]. *)
Definition timestamp (dt : aware_datetime) : result spec_float :=
  if bool_decide (-86400 < offset dt < 86400)%Z
  then true_divide (clock_us dt - offset dt * 1000000) 1000000
  else Raise ValueError.

(** [RSS.metadata_updated_on(item)] *)
Definition metadata_updated_on (item : Entry) : result spec_float :=
  published ← getitem item "published";
  ts ← str_to_datetime published;
  timestamp ts.

(** *** fetch *)

(** [RSS.parse_feed(raw_entries)] *)
Definition parse_feed (raw_entries : RawPayload) : FeedDocument :=
  feedparser_parse raw_entries.

(** The loop [for item in entries: yield item; nentries += 1] entered at
    its head, and the statement after it. *)
Definition fetch_for (rest : list Entry) (nentries : nat)
    : M (step Entry * fetch_frame) :=
  match rest with
  | item :: rest' => mret (Yielded item, FetchYielded rest' nentries)
  | [] =>
      logger_info (TotalEntries nentries);;
      mret (Exhausted, FetchClosed)
  end.

(** The body of [RSS.fetch], from each of its program points. *)
Definition fetch_body (f : fetch_frame) : M (step Entry * fetch_frame) :=
  match f with
  | FetchCreated =>
      s ← get_self;
      logger_info (LookingForEntries (url s));;
      _purge_cache_queue;;
      let nentries := 0%nat in
      raw_entries ← get_entries (client s);
      _push_cache_queue raw_entries;;
      let entries := entries (parse_feed raw_entries) in
      _flush_cache_queue;;
      fetch_for entries nentries
  | FetchYielded rest nentries => fetch_for rest (S nentries)
  | FetchClosed => mret (Exhausted, FetchClosed)
  end.

Definition fetch_next (f : fetch_frame)
    : World → step Entry * fetch_frame * World :=
  resume FetchClosed (fetch_body f).

(** *** fetch_from_cache *)

Definition cache_for (rest : list Entry) : M (step Entry * cache_frame) :=
  match rest with
  | item :: rest' => mret (Yielded item, CacheYielded rest')
  | [] => mret (Exhausted, CacheClosed)
  end.

(** The body of [RSS.fetch_from_cache], from each of its program
    points. *)
Definition fetch_from_cache_body (f : cache_frame)
    : M (step Entry * cache_frame) :=
  match f with
  | CacheCreated =>
      s ← get_self;
      match cache s with
      | None => mthrow (CacheError "cache instance was not provided")
      | Some c =>
          emit EvRetrieve;;
          cache_entries ← lift_result (py_next (retrieve c));
          let entries := entries (feedparser_parse cache_entries) in
          cache_for entries
      end
  | CacheYielded rest => cache_for rest
  | CacheClosed => mret (Exhausted, CacheClosed)
  end.

Definition fetch_from_cache_next (f : cache_frame)
    : World → step Entry * cache_frame * World :=
  resume CacheClosed (fetch_from_cache_body f).

(** *** The decorator *)

(** Modelled from the spec: the decorator [metadata] of the host
    framework (not part of rss.py) wraps each raw entry in a
    metadata-augmented record as it is produced. *)
Definition decorate (s : RSS) (data : Entry) : result Item :=
  i ← metadata_id data;
  u ← metadata_updated_on data;
  let c := metadata_category data in
  mret {| item_id := i; item_updated_on := u; item_category := c;
          item_backend_name := class_name;
          item_backend_version := version;
          item_origin := url s; item_tag := tag s;
          item_raw_data := data |}.

Section Metadata.

Context {F : Type}.

(** The decorated function, whose call makes a generator with frames [F],
    and [next] on its generators. *)
Variable func : M F.
Variable func_next : F → World → step Entry * F * World.

(** Modelled from the spec: the loop [for data in func(self): yield
    item] of the decorator [metadata] (not part of rss.py), entered at
    its head. *)
Definition metadata_for (inner : F)
    : World → step Item * meta_frame F * World :=
  fun w =>
    match func_next inner w with
    | (Yielded data, inner', w') =>
        match decorate (self w') data with
        | Ok item => (Yielded item, MetaIterating inner', w')
        | Raise e => (Raised (generator_raise e), MetaClosed, w')
        end
    | (Exhausted, _, w') => (Exhausted, MetaClosed, w')
    | (Raised e, _, w') => (Raised e, MetaClosed, w')
    end.

(** Modelled from the spec: [next] on a generator of the decorator
    [metadata] (not part of rss.py).  The first [next] calls the decorated
    function and enters the loop over what it returns. *)
Definition metadata_next (m : meta_frame F)
    : World → step Item * meta_frame F * World :=
  match m with
  | MetaCreated =>
      fun w =>
        match func w with
        | (Ok inner, w') => metadata_for inner w'
        | (Raise e, w') => (Raised (generator_raise e), MetaClosed, w')
        end
  | MetaIterating inner => metadata_for inner
  | MetaClosed => fun w => (Exhausted, MetaClosed, w)
  end.

End Metadata.

(** Modelled from the spec: the call of a function [func] under the
    decorator [metadata] (not part of rss.py).  The wrapper is a generator
    function itself: the call makes its generator, which holds [func], and
    runs nothing. *)
Definition metadata {F : Type} (func : M F) : M (meta_frame F) :=
  mret MetaCreated.

(** *** The public operations *)

(** [def fetch(self)] as it is written, without its decorator: the body
    has a [yield], so the call makes a generator and runs nothing of the
    body. *)
Definition fetch_func : M fetch_frame := mret FetchCreated.

(** [def fetch_from_cache(self)], without its decorator. *)
Definition fetch_from_cache_func : M cache_frame := mret CacheCreated.

(** The call [backend.fetch()], with [@metadata]. *)
Definition fetch : M (meta_frame fetch_frame) := metadata fetch_func.

Definition fetch_gen_next
    : meta_frame fetch_frame → World → step Item * meta_frame fetch_frame * World :=
  metadata_next fetch_func fetch_next.

(** The call [backend.fetch_from_cache()], with [@metadata]. *)
Definition fetch_from_cache : M (meta_frame cache_frame) :=
  metadata fetch_from_cache_func.

Definition fetch_from_cache_gen_next
    : meta_frame cache_frame → World → step Item * meta_frame cache_frame * World :=
  metadata_next fetch_from_cache_func fetch_from_cache_next.

(** [list(gen)] with the outcome made explicit: the items the call
    [call] yields to a caller that iterates it, how the iteration ends,
    and the world it leaves. *)
Definition iterate {F : Type} (call : M (meta_frame F))
    (next : meta_frame F → World → step Item * meta_frame F * World)
    (fuel : nat) (w : World) : list Item * ending * World :=
  match call w with
  | (Ok g, w') => consume next fuel g w'
  | (Raise e, w') => ([], Failed e, w')
  end.

(** *** Vocabulary of the contract *)

(** An entry is well formed when it has a non-empty link and a published
    date that the date parser accepts, in a zone whose offset lies
    strictly within 24 hours. *)
Definition well_formed (e : Entry) : bool :=
  match e !! "link", e !! "published" with
  | Some l, Some p =>
      negb (String.eqb l "") &&
      match dateutil_parse p with
      | Some dt => bool_decide (-86400 < default 0 (utcoffset dt) < 86400)%Z
      | None => false
      end
  | _, _ => false
  end.

(** What the decorator makes of a sequence of entries: the items of the
    entries up to the first one it cannot wrap, and the exception that
    one raises, if there is one. *)
Fixpoint decorate_all (s : RSS) (es : list Entry) : list Item * option exn :=
  match es with
  | [] => ([], None)
  | e :: es' =>
      match decorate s e with
      | Ok item =>
          let '(items, x) := decorate_all s es' in (item :: items, x)
      | Raise err => ([], Some (generator_raise err))
      end
  end.

(** The outcome of an iteration whose entries decorate to [d]: it
    completes in world [wf], or fails in world [w1]. *)
Definition finish (d : list Item * option exn) (w1 wf : World)
    : list Item * ending * World :=
  match d with
  | (items, None) => (items, Completed, wf)
  | (items, Some err) => (items, Failed err, w1)
  end.

(** A generator of entries, resumed from frame [f] in world [w], yields
    the entries [es] one after the other, leaving world [w1] at each
    [yield], and then ends in world [wf]. *)
Inductive unrolls {F : Type} (next : F → World → step Entry * F * World)
    (w1 wf : World) : F → World → list Entry → Prop :=
| unrolls_nil f w f' :
    next f w = (Exhausted, f', wf) →
    unrolls next w1 wf f w []
| unrolls_cons f w f' e es :
    next f w = (Yielded e, f', w1) →
    unrolls next w1 wf f' w1 es →
    unrolls next w1 wf f w (e :: es).

(** The world a [fetch] leaves when the GET is answered by [req] without
    an error status: the payload was staged and committed, if there is a
    cache. *)
Definition fetched (w : World) (req : Response) : World :=
  let s := self w in
  let head := [EvLog (LookingForEntries (url s)); EvPurge;
               EvGet (client_url (client s))] in
  match cache s with
  | Some c =>
      {| self := set_cache_queue (set_cache s (Some (store c [text req]))) [];
         trace := trace w ++ head ++ [EvPush (text req); EvFlush [text req]] |}
  | None =>
      {| self := set_cache_queue s []; trace := trace w ++ head |}
  end.

(** The world a [fetch] leaves when the GET fails: the queue was purged,
    nothing was staged or committed. *)
Definition refused (w : World) : World :=
  let s := self w in
  {| self := set_cache_queue s [];
     trace := trace w ++ [EvLog (LookingForEntries (url s)); EvPurge;
                          EvGet (client_url (client s))] |}.

Definition logged (w : World) (r : log_record) : World :=
  {| self := self w; trace := trace w ++ [EvLog r] |}.

(** Follows the spec's words: the Universal-Time epoch-seconds value of a
    date-time, a date-time without a time zone being read as Universal
    Time. *)
Definition utc_epoch_seconds (dt : datetime) : Q :=
  match utcoffset dt with
  | Some offset => (wall_us dt - offset * 1000000) # 1000000
  | None => wall_us dt # 1000000
  end.

(** The rational number a finite float stands for. *)
Definition SF2Q (f : spec_float) : Q :=
  match f with
  | S754_finite s m e => inject_Z (cond_Zopp s (Zpos m)) * 2 ^ e
  | _ => 0
  end.

Definition is_finite (f : spec_float) : bool :=
  match f with
  | S754_zero _ | S754_finite _ _ _ => true
  | _ => false
  end.

Definition even_mantissa (f : spec_float) : bool :=
  match f with
  | S754_finite _ m _ => Z.even (Zpos m)
  | _ => true
  end.

(** The numbers [M * 2 ^ k] with a mantissa of at most 53 bits and an
    exponent from -1074: every finite binary64 number is one of them. *)
Definition on_grid (M k : Z) : Prop := (Z.abs M < 2 ^ 53 ∧ -1074 ≤ k)%Z.

(** Follows the spec's words: [f] is the value [x] as a floating-point
    number, that is the finite binary64 number nearest to [x], and of two
    that are as near the one with the even mantissa. *)
Definition binary64_of (f : spec_float) (x : Q) : Prop :=
  is_finite f = true ∧
  valid_binary 53 1024 f = true ∧
  (∀ M k, on_grid M k →
     (Qabs (SF2Q f - x) <= Qabs (inject_Z M * 2 ^ k - x))%Q) ∧
  (∀ M k, on_grid M k →
     (Qabs (inject_Z M * 2 ^ k - x) == Qabs (SF2Q f - x))%Q →
     (inject_Z M * 2 ^ k == SF2Q f)%Q ∨ even_mantissa f = true).

(** The events that write to the cache or to its queue of staged
    records. *)
Definition is_cache_write (ev : event) : bool :=
  match ev with
  | EvPush _ | EvFlush _ => true
  | _ => false
  end.

(** The events of a trace that are calls of [requests.get]. *)
Definition is_get (ev : event) : bool :=
  match ev with
  | EvGet _ => true
  | _ => false
  end.

Definition requests_made (t : list event) : nat :=
  length (List.filter is_get t).

(** The world [w] with the records [q] left staged in the queue, as a
    run that failed between the push and the flush leaves them. *)
Definition restage (w : World) (q : list RawPayload) : World :=
  {| self := set_cache_queue (self w) q; trace := trace w |}.

(** The world after a retrieval from the cache. *)
Definition retrieved (w : World) : World :=
  {| self := self w; trace := trace w ++ [EvRetrieve] |}.

(** The log records that report a total. *)
Definition is_total (ev : event) : bool :=
  match ev with
  | EvLog (TotalEntries _) => true
  | _ => false
  end.

End Connector.

(** ** A sample installation

    A server with a feed of two entries, a feed whose second entry has no
    publication date, and a page that is gone; the parser and the dates
    that go with them. *)
Module Sample.

Definition feed_url : string := "http://x/feed".
Definition broken_url : string := "http://x/broken".
Definition gone_url : string := "http://x/gone".

Definition e1 : gmap string string :=
  <["link" := "http://x/1"]>
    (<["published" := "Mon, 01 Jan 2024 00:00:00 GMT"]> ∅).

Definition e2 : gmap string string :=
  <["link" := "http://x/2"]>
    (<["published" := "Tue, 02 Jan 2024 01:00:00 +0100"]> ∅).

Definition e_unpublished : gmap string string :=
  <["link" := "http://x/3"]> ∅.

(** An entry published five hours west of Universal Time, and one in a
    zone 25 hours east of it. *)
Definition e_west : gmap string string :=
  <["link" := "http://x/4"]>
    (<["published" := "2024-01-04 00:00:00.123456 -0500"]> ∅).

Definition e_far : gmap string string :=
  <["link" := "http://x/5"]>
    (<["published" := "2024-01-04 00:00:00.123456 +2500"]> ∅).

Definition sample_server (u : string) : HttpResult :=
  if String.eqb u feed_url
  then Responded {| status_code := 200; text := "two" |}
  else if String.eqb u broken_url
  then Responded {| status_code := 200; text := "broken" |}
  else if String.eqb u gone_url
  then Responded {| status_code := 404; text := "Not Found" |}
  else NoConnection.

Definition sample_parse (raw : string) : FeedDocument :=
  if String.eqb raw "two" then {| entries := [e1; e2] |}
  else if String.eqb raw "broken" then {| entries := [e1; e_unpublished; e2] |}
  else {| entries := [] |}.

Definition sample_dates (s : string) : option datetime :=
  if String.eqb s "Mon, 01 Jan 2024 00:00:00 GMT"
  then Some {| wall_us := 1704067200000000; utcoffset := Some 0 |}
  else if String.eqb s "Tue, 02 Jan 2024 01:00:00 +0100"
  then Some {| wall_us := 1704157200000000; utcoffset := Some 3600 |}
  else if String.eqb s "2024-01-03 00:00:00"
  then Some {| wall_us := 1704240000000000; utcoffset := None |}
  else if String.eqb s "2024-01-04 00:00:00.123456 +2500"
  then Some {| wall_us := 1704326400123456; utcoffset := Some 90000 |}
  else if String.eqb s "2024-01-04 00:00:00.123456 -0500"
  then Some {| wall_us := 1704326400123456; utcoffset := Some (-18000) |}
  else None.

Lemma sample_dates_range s dt :
  sample_dates s = Some dt → (datetime_min ≤ wall_us dt ≤ datetime_max)%Z.
Proof.
  unfold sample_dates, datetime_min, datetime_max.
  repeat destruct (String.eqb s _); intros [= <-]; cbn; lia.
Qed.

#[export] Instance sample_libs : Libraries := {|
  server := sample_server;
  feedparser_parse := sample_parse;
  dateutil_parse := sample_dates;
  dateutil_range := sample_dates_range
|}.

Definition empty_cache : Cache := {| records := [] |}.
Definition used_cache : Cache := {| records := ["old"] |}.

(** A connector just constructed, nothing observed yet. *)
Definition start (u : string) (c : option Cache) : World :=
  {| self := RSS_init u None c; trace := [] |}.

End Sample.

(** * Floats: true division rounds correctly *)

Section Floats.

Local Open Scope Z_scope.

(** No integer is nearer to [n / d] than [round_half_even n d]. *)
Lemma round_half_even_nearest n d N :
  0 < d → Z.abs (round_half_even n d * d - n) <= Z.abs (N * d - n).
Proof.
  intros Hd. unfold round_half_even.
  pose proof (Z.div_mod n d ltac:(lia)) as Hn.
  pose proof (Z.mod_pos_bound n d Hd) as Hr.
  set (q := n / d) in *. set (r := n mod d) in *.
  assert (Hcases : N <= q ∨ q + 1 <= N) by lia.
  destruct (Z.compare_spec (2 * r) d); [destruct (Z.even q)| |]; nia.
Qed.

(** When another integer is as near, the one chosen is even. *)
Lemma round_half_even_tie n d N :
  0 < d → N ≠ round_half_even n d →
  Z.abs (N * d - n) = Z.abs (round_half_even n d * d - n) →
  Z.even (round_half_even n d) = true.
Proof.
  intros Hd. unfold round_half_even.
  pose proof (Z.div_mod n d ltac:(lia)) as Hn.
  pose proof (Z.mod_pos_bound n d Hd) as Hr.
  set (q := n / d) in *. set (r := n mod d) in *.
  destruct (Z.compare_spec (2 * r) d) as [He|Hl|Hg].
  - destruct (Z.even q) eqn:Hq; intros _ _; [exact Hq|].
    rewrite Z.even_add, Hq. reflexivity.
  - intros HN Habs. exfalso.
    assert (Hcases : N <= q - 1 ∨ N = q ∨ q + 1 <= N) by lia.
    destruct Hcases as [?|[?|?]]; nia.
  - intros HN Habs. exfalso.
    assert (Hcases : N <= q ∨ N = q + 1 ∨ q + 2 <= N) by lia.
    destruct Hcases as [?|[?|?]]; nia.
Qed.

Lemma round_half_even_ge n d lo :
  0 < d → lo * d <= n → lo <= round_half_even n d.
Proof.
  intros Hd Hlo. unfold round_half_even.
  assert (lo <= n / d) by (apply Z.div_le_lower_bound; lia).
  destruct (2 * (n mod d) ?= d); [destruct (Z.even (n / d))| |]; lia.
Qed.

Lemma round_half_even_le n d hi :
  0 < d → n <= hi * d → round_half_even n d <= hi.
Proof.
  intros Hd Hhi. unfold round_half_even.
  pose proof (Z.div_mod n d ltac:(lia)) as Hn.
  pose proof (Z.mod_pos_bound n d Hd) as Hr.
  set (q := n / d) in *. set (r := n mod d) in *.
  assert (q <= hi) by nia.
  destruct (Z.compare_spec (2 * r) d); [destruct (Z.even q)| |]; nia.
Qed.

Local Open Scope Q_scope.

Lemma pow2_pos e : 0 < 2 ^ e.
Proof. apply Qpower_0_lt. reflexivity. Qed.

Lemma pow2_add a b : 2 ^ (a + b) == 2 ^ a * 2 ^ b.
Proof. apply Qpower_plus. discriminate. Qed.

Lemma pow2_inject e : (0 <= e)%Z → 2 ^ e == inject_Z (2 ^ e).
Proof. intros He. rewrite Zpower_Qpower by exact He. reflexivity. Qed.

Lemma pow2_succ e : 2 ^ (e + 1) == 2 * 2 ^ e.
Proof. rewrite pow2_add. change (2 ^ 1) with 2. ring. Qed.

Lemma scale_spec n d e n' d' :
  scale n d e = (n', d') →
  inject_Z n' * (inject_Z d * 2 ^ e) == inject_Z n * inject_Z d'.
Proof.
  unfold scale. intros [= <- <-].
  rewrite !inject_Z_mult.
  rewrite <- !pow2_inject by lia.
  assert (H : 2 ^ Z.max 0 e == 2 ^ Z.max 0 (- e) * 2 ^ e).
  { rewrite <- pow2_add. replace (Z.max 0 (- e) + e)%Z with (Z.max 0 e) by lia.
    reflexivity. }
  rewrite H. ring.
Qed.

Lemma scale_pos n d e n' d' :
  (0 < d)%Z → scale n d e = (n', d') → (0 < d')%Z.
Proof.
  unfold scale. intros Hd [= <- <-].
  apply Z.mul_pos_pos; [exact Hd|]. apply Z.pow_pos_nonneg; lia.
Qed.

Lemma log2_bounds n :
  (0 < n)%Z →
  2 ^ Z.log2 n <= inject_Z n ∧ inject_Z n < 2 * 2 ^ Z.log2 n.
Proof.
  intros Hn. destruct (Z.log2_spec n Hn) as [Hlo Hhi].
  pose proof (Z.log2_nonneg n) as Hnn.
  rewrite <- pow2_succ, !pow2_inject by lia.
  rewrite <- Zle_Qle, <- Zlt_Qlt. split; [exact Hlo|].
  replace (Z.log2 n + 1)%Z with (Z.succ (Z.log2 n)) by lia. exact Hhi.
Qed.

Lemma cancel_le a b c : 0 < c → a * c <= b * c → a <= b.
Proof. intros Hc H. apply Qmult_le_r in H; assumption. Qed.

Lemma cancel_lt a b c : 0 < c → a * c < b * c → a < b.
Proof. intros Hc H. apply Qmult_lt_r in H; assumption. Qed.

(** [log2_quotient n d] is the exponent of the quotient. *)
Lemma log2_quotient_spec n d :
  (0 < n)%Z → (0 < d)%Z →
  2 ^ log2_quotient n d * inject_Z d <= inject_Z n ∧
  inject_Z n < 2 ^ (log2_quotient n d + 1) * inject_Z d.
Proof.
  intros Hn Hd. unfold log2_quotient.
  destruct (log2_bounds n Hn) as [HnA HnA2].
  destruct (log2_bounds d Hd) as [HdB HdB2].
  set (k := (Z.log2 n - Z.log2 d)%Z).
  assert (HA : 2 ^ Z.log2 n == 2 ^ k * 2 ^ Z.log2 d).
  { rewrite <- pow2_add. replace (k + Z.log2 d)%Z with (Z.log2 n) by lia.
    reflexivity. }
  destruct (scale n d k) as [n' d'] eqn:Hs.
  pose proof (scale_spec _ _ _ _ _ Hs) as Hrel.
  pose proof (scale_pos _ _ _ _ _ Hd Hs) as Hd'.
  pose proof (pow2_pos k) as HK. pose proof (pow2_pos (Z.log2 d)) as HB.
  assert (HD : 0 < inject_Z d) by (rewrite Zlt_Qlt in Hd; exact Hd).
  assert (HD' : 0 < inject_Z d') by (rewrite Zlt_Qlt in Hd'; exact Hd').
  destruct (Z.leb_spec d' n') as [Hle|Hlt].
  - rewrite Zle_Qle in Hle. rewrite pow2_succ.
    assert (HDK : 0 < inject_Z d * 2 ^ k) by (apply Qmult_lt_0_compat; assumption).
    split.
    + apply (cancel_le _ _ (inject_Z d') HD').
      assert (0 <= (inject_Z n' - inject_Z d') * (inject_Z d * 2 ^ k))
        by (apply Qmult_le_0_compat; lra).
      lra.
    + assert (0 <= 2 ^ k * (inject_Z d - 2 ^ Z.log2 d))
        by (apply Qmult_le_0_compat; lra).
      lra.
  - rewrite Zlt_Qlt in Hlt.
    assert (HDK : 0 < inject_Z d * 2 ^ k) by (apply Qmult_lt_0_compat; assumption).
    replace (k - 1 + 1)%Z with k by lia.
    assert (HH : 2 * 2 ^ (k - 1) == 2 ^ k).
    { rewrite <- pow2_succ. replace (k - 1 + 1)%Z with k by lia. reflexivity. }
    pose proof (pow2_pos (k - 1)) as HHpos.
    split.
    + assert (0 <= 2 ^ (k - 1) * (2 * 2 ^ Z.log2 d - inject_Z d))
        by (apply Qmult_le_0_compat; lra).
      assert (2 ^ Z.log2 n == 2 * 2 ^ (k - 1) * 2 ^ Z.log2 d)
        by (rewrite HA, <- HH; ring).
      lra.
    + apply (cancel_lt _ _ (inject_Z d') HD').
      assert (0 < (inject_Z d' - inject_Z n') * (inject_Z d * 2 ^ k))
        by (apply Qmult_lt_0_compat; lra).
      lra.
Qed.

Lemma Qabs_inject a b c :
  Qabs (inject_Z a * inject_Z b - inject_Z c) == inject_Z (Z.abs (a * b - c)).
Proof.
  unfold Qminus. rewrite <- inject_Z_mult, <- inject_Z_opp, <- inject_Z_plus.
  reflexivity.
Qed.

Lemma pow2_le a b : (a <= b)%Z → 2 ^ a <= 2 ^ b.
Proof. intros H. apply Qpower_le_compat_l; [exact H | discriminate]. Qed.

Section Core.

Variables (n d : Z) (x : Q).
Hypothesis Hn : (0 < n)%Z.
Hypothesis Hd : (0 < d)%Z.
Hypothesis Hx : x * inject_Z d == inject_Z n.

Let e := Z.max (log2_quotient n d - 52) (-1074).
Let n' := fst (scale n d e).
Let d' := snd (scale n d e).
Let m := round_half_even n' d'.

Local Lemma core_scale : scale n d e = (n', d').
Proof. unfold n', d'. destruct (scale n d e). reflexivity. Qed.

Local Lemma core_den_pos : 0 < inject_Z d.
Proof. pose proof Hd as H. rewrite Zlt_Qlt in H. exact H. Qed.

Local Lemma core_scaled_den_pos : (0 < d')%Z.
Proof. exact (scale_pos _ _ _ _ _ Hd core_scale). Qed.

Local Lemma core_scaled_den_pos_Q : 0 < inject_Z d'.
Proof. pose proof core_scaled_den_pos as H. rewrite Zlt_Qlt in H. exact H. Qed.

(** [n' / d'] is [x / 2 ^ e]. *)
Local Lemma core_scaled_quotient : inject_Z n' * 2 ^ e == x * inject_Z d'.
Proof.
  pose proof (scale_spec _ _ _ _ _ core_scale) as H. pose proof core_den_pos as HD.
  apply (Qmult_inj_r _ _ (inject_Z d)); [lra|].
  assert (H' : x * inject_Z d * inject_Z d' == inject_Z n * inject_Z d')
    by (rewrite Hx; reflexivity).
  lra.
Qed.

Local Lemma core_quotient_lower : 2 ^ log2_quotient n d <= x.
Proof.
  destruct (log2_quotient_spec n d Hn Hd) as [H _].
  apply (cancel_le _ _ (inject_Z d) core_den_pos). rewrite Hx. exact H.
Qed.

Local Lemma core_quotient_upper : x < 2 ^ (log2_quotient n d + 1).
Proof.
  destruct (log2_quotient_spec n d Hn Hd) as [_ H].
  apply (cancel_lt _ _ (inject_Z d) core_den_pos). rewrite Hx. exact H.
Qed.

Local Lemma core_scaled_below : inject_Z n' < inject_Z (2 ^ 53) * inject_Z d'.
Proof.
  pose proof core_quotient_upper as H. pose proof (pow2_pos e) as HU. pose proof core_scaled_den_pos_Q as HD'.
  assert (Hle : 2 ^ (log2_quotient n d + 1) <= 2 ^ (53 + e)).
  { apply pow2_le. unfold e. lia. }
  assert (H53 : 2 ^ (53 + e) == inject_Z (2 ^ 53) * 2 ^ e).
  { rewrite pow2_add. apply Qmult_comp; [|reflexivity].
    apply pow2_inject. lia. }
  rewrite H53 in Hle.
  apply (cancel_lt _ _ (2 ^ e) HU). rewrite core_scaled_quotient.
  assert (0 < (inject_Z (2 ^ 53) * 2 ^ e - x) * inject_Z d')
    by (apply Qmult_lt_0_compat; lra).
  lra.
Qed.

Local Lemma core_scaled_above : (-1074 < e)%Z → inject_Z (2 ^ 52) * inject_Z d' <= inject_Z n'.
Proof.
  intros He. pose proof core_quotient_lower as H. pose proof (pow2_pos e) as HU.
  pose proof core_scaled_den_pos_Q as HD'.
  assert (Heq : 2 ^ log2_quotient n d == 2 ^ (52 + e)).
  { replace (52 + e)%Z with (log2_quotient n d) by (unfold e in *; lia).
    reflexivity. }
  assert (H52 : 2 ^ (52 + e) == inject_Z (2 ^ 52) * 2 ^ e).
  { rewrite pow2_add. apply Qmult_comp; [|reflexivity].
    apply pow2_inject. lia. }
  rewrite H52 in Heq.
  apply (cancel_le _ _ (2 ^ e) HU). rewrite core_scaled_quotient.
  assert (0 <= (x - inject_Z (2 ^ 52) * 2 ^ e) * inject_Z d')
    by (apply Qmult_le_0_compat; lra).
  lra.
Qed.

Lemma mantissa_bounds : (0 <= m <= 2 ^ 53)%Z ∧ ((-1074 < e)%Z → (2 ^ 52 <= m)%Z).
Proof.
  pose proof core_scaled_den_pos as Hd'. split; [split|].
  - apply round_half_even_ge; [exact Hd'|].
    unfold n', scale. cbn [fst].
    assert (0 < 2 ^ Z.max 0 (- e))%Z by (apply Z.pow_pos_nonneg; lia). nia.
  - apply round_half_even_le; [exact Hd'|].
    pose proof core_scaled_below as H. rewrite <- inject_Z_mult, <- Zlt_Qlt in H. lia.
  - intros He. apply round_half_even_ge; [exact Hd'|].
    pose proof (core_scaled_above He) as H. rewrite <- inject_Z_mult, <- Zle_Qle in H. exact H.
Qed.

(** Distances to [x], on the grid of [2 ^ e] and on the integers. *)
Local Lemma distance t :
  Qabs (t * 2 ^ e - x) * inject_Z d' == Qabs (t * inject_Z d' - inject_Z n') * 2 ^ e.
Proof.
  pose proof core_scaled_den_pos_Q as HD'. pose proof (pow2_pos e) as HU.
  rewrite <- (Qabs_pos (inject_Z d')) at 1 by lra.
  rewrite <- (Qabs_pos (2 ^ e)) at 2 by lra.
  rewrite <- !Qabs_Qmult. apply Qabs_wd.
  pose proof core_scaled_quotient as H. lra.
Qed.

Local Lemma closer t1 t2 :
  Qabs (t1 * inject_Z d' - inject_Z n') <= Qabs (t2 * inject_Z d' - inject_Z n') →
  Qabs (t1 * 2 ^ e - x) <= Qabs (t2 * 2 ^ e - x).
Proof.
  intros H. pose proof core_scaled_den_pos_Q as HD'. pose proof (pow2_pos e) as HU.
  apply (cancel_le _ _ (inject_Z d') HD'). rewrite !distance.
  apply Qmult_le_r; assumption.
Qed.

(** No number of the grid is nearer to [x] than [m * 2 ^ e]. *)
Lemma mantissa_nearest M k :
  (Z.abs M < 2 ^ 53)%Z → (-1074 <= k)%Z →
  Qabs (inject_Z m * 2 ^ e - x) <= Qabs (inject_Z M * 2 ^ k - x).
Proof.
  intros HM Hk. pose proof core_scaled_den_pos_Q as HD'. pose proof core_scaled_den_pos as Hd'.
  pose proof (pow2_pos e) as HU.
  destruct (Z_le_gt_dec e k) as [Hek|Hek].
  - assert (Hg : inject_Z M * 2 ^ k == inject_Z (M * 2 ^ (k - e)) * 2 ^ e).
    { rewrite inject_Z_mult, <- pow2_inject by lia.
      rewrite <- Qmult_assoc, <- pow2_add.
      replace (k - e + e)%Z with k by lia. reflexivity. }
    rewrite Hg. apply closer. rewrite !Qabs_inject, <- Zle_Qle.
    apply round_half_even_nearest. exact Hd'.
  - set (t := inject_Z M * 2 ^ (k - e)).
    assert (Hg : inject_Z M * 2 ^ k == t * 2 ^ e).
    { unfold t. rewrite <- Qmult_assoc, <- pow2_add.
      replace (k - e + e)%Z with k by lia. reflexivity. }
    rewrite Hg. apply closer.
    assert (HV : 2 * 2 ^ (k - e) <= 1).
    { rewrite <- pow2_succ. change 1 with (2 ^ 0). apply pow2_le. lia. }
    pose proof (pow2_pos (k - e)) as HVpos.
    assert (HMq : inject_Z M < inject_Z (2 ^ 53)) by (rewrite <- Zlt_Qlt; lia).
    assert (Ht : t < inject_Z (2 ^ 52)).
    { unfold t.
      assert (0 < (inject_Z (2 ^ 53) - inject_Z M) * 2 ^ (k - e))
        by (apply Qmult_lt_0_compat; lra).
      change (inject_Z (2 ^ 53)) with (2 * inject_Z (2 ^ 52)) in *.
      assert (0 <= inject_Z (2 ^ 52) * (1 - 2 * 2 ^ (k - e)))
        by (apply Qmult_le_0_compat; [discriminate | lra]).
      lra. }
    pose proof (core_scaled_above ltac:(lia)) as Hlow.
    apply Qle_trans with (Qabs (inject_Z (2 ^ 52) * inject_Z d' - inject_Z n')).
    + rewrite !Qabs_inject, <- Zle_Qle.
      apply round_half_even_nearest. exact Hd'.
    + assert (0 < (inject_Z (2 ^ 52) - t) * inject_Z d')
        by (apply Qmult_lt_0_compat; lra).
      rewrite !Qabs_neg by lra. lra.
Qed.

Local Lemma same_distance t1 t2 :
  Qabs (t1 * 2 ^ e - x) == Qabs (t2 * 2 ^ e - x) →
  Qabs (t1 * inject_Z d' - inject_Z n') == Qabs (t2 * inject_Z d' - inject_Z n').
Proof.
  intros H. pose proof (pow2_pos e) as HU.
  apply (Qmult_inj_r _ _ (2 ^ e)); [lra|].
  rewrite <- !distance, H. reflexivity.
Qed.

Lemma mantissa_tie M k :
  (Z.abs M < 2 ^ 53)%Z → (-1074 <= k)%Z →
  Qabs (inject_Z M * 2 ^ k - x) == Qabs (inject_Z m * 2 ^ e - x) →
  inject_Z M * 2 ^ k == inject_Z m * 2 ^ e ∨ Z.even m = true.
Proof.
  intros HM Hk. pose proof core_scaled_den_pos_Q as HD'. pose proof core_scaled_den_pos as Hd'.
  pose proof (pow2_pos e) as HU.
  destruct (Z_le_gt_dec e k) as [Hek|Hek].
  - assert (Hg : inject_Z M * 2 ^ k == inject_Z (M * 2 ^ (k - e)) * 2 ^ e).
    { rewrite inject_Z_mult, <- pow2_inject by lia.
      rewrite <- Qmult_assoc, <- pow2_add.
      replace (k - e + e)%Z with k by lia. reflexivity. }
    rewrite Hg. intros Heq.
    destruct (Z.eq_dec (M * 2 ^ (k - e)) m) as [->|Hne]; [left; reflexivity|].
    right. apply same_distance in Heq.
    rewrite !Qabs_inject, inject_Z_injective in Heq.
    exact (round_half_even_tie _ _ _ Hd' Hne Heq).
  - set (t := inject_Z M * 2 ^ (k - e)).
    assert (Hg : inject_Z M * 2 ^ k == t * 2 ^ e).
    { unfold t. rewrite <- Qmult_assoc, <- pow2_add.
      replace (k - e + e)%Z with k by lia. reflexivity. }
    rewrite Hg. intros Heq. exfalso. apply same_distance in Heq.
    assert (HV : 2 * 2 ^ (k - e) <= 1).
    { rewrite <- pow2_succ. change 1 with (2 ^ 0). apply pow2_le. lia. }
    pose proof (pow2_pos (k - e)) as HVpos.
    assert (HMq : inject_Z M < inject_Z (2 ^ 53)) by (rewrite <- Zlt_Qlt; lia).
    assert (Ht : t < inject_Z (2 ^ 52)).
    { unfold t.
      assert (0 < (inject_Z (2 ^ 53) - inject_Z M) * 2 ^ (k - e))
        by (apply Qmult_lt_0_compat; lra).
      change (inject_Z (2 ^ 53)) with (2 * inject_Z (2 ^ 52)) in *.
      assert (0 <= inject_Z (2 ^ 52) * (1 - 2 * 2 ^ (k - e)))
        by (apply Qmult_le_0_compat; [discriminate | lra]).
      lra. }
    pose proof (core_scaled_above ltac:(lia)) as Hlow.
    assert (Hnear : Qabs (inject_Z m * inject_Z d' - inject_Z n') <=
                    Qabs (inject_Z (2 ^ 52) * inject_Z d' - inject_Z n')).
    { rewrite !Qabs_inject, <- Zle_Qle.
      apply round_half_even_nearest. exact Hd'. }
    assert (0 < (inject_Z (2 ^ 52) - t) * inject_Z d')
      by (apply Qmult_lt_0_compat; lra).
    rewrite (Qabs_neg (t * inject_Z d' - inject_Z n')) in Heq by lra.
    rewrite (Qabs_neg (inject_Z (2 ^ 52) * inject_Z d' - inject_Z n')) in Hnear
      by lra.
    lra.
Qed.

End Core.

Local Open Scope Z_scope.

Lemma digits2_pos_bounds p :
  2 ^ (Zpos (digits2_pos p) - 1) <= Zpos p < 2 ^ Zpos (digits2_pos p).
Proof.
  induction p as [p IH|p IH|]; cbn [digits2_pos]; [| |cbn; lia];
    rewrite Pos2Z.inj_succ;
    replace (Z.succ (Zpos (digits2_pos p)) - 1) with
      (Z.succ (Zpos (digits2_pos p) - 1)) by lia;
    rewrite !Z.pow_succ_r by lia; lia.
Qed.

Lemma valid_binary64 s m e :
  Zpos m < 2 ^ 53 → -1074 <= e <= 971 → (e = -1074 ∨ 2 ^ 52 <= Zpos m) →
  valid_binary 53 1024 (S754_finite s m e) = true.
Proof.
  intros Hm He Hnorm. cbn [valid_binary]. unfold bounded, canonical_mantissa, fexp, emin.
  destruct (digits2_pos_bounds m) as [Hlo Hhi].
  assert (Hdg : Zpos (digits2_pos m) <= 53).
  { destruct (Z_le_gt_dec (Zpos (digits2_pos m)) 53) as [H|H]; [exact H|].
    exfalso. assert (2 ^ 53 <= 2 ^ (Zpos (digits2_pos m) - 1))
      by (apply Z.pow_le_mono_r; lia). lia. }
  apply andb_true_intro. split; [|apply Z.leb_le; lia].
  apply Z.eqb_eq. destruct Hnorm as [->|Hn]; [lia|].
  assert (53 <= Zpos (digits2_pos m)).
  { destruct (Z_le_gt_dec 53 (Zpos (digits2_pos m))) as [H|H]; [exact H|].
    exfalso. assert (2 ^ Zpos (digits2_pos m) <= 2 ^ 52)
      by (apply Z.pow_le_mono_r; lia). lia. }
  lia.
Qed.

Local Open Scope Q_scope.

Lemma carry_value s U :
  inject_Z (cond_Zopp s (Zpos (Z.to_pos (2 ^ 52)))) * (2 * U) ==
  inject_Z (cond_Zopp s (2 ^ 53)) * U.
Proof.
  destruct U as [un ud]. destruct s; unfold Qeq; cbn; lia.
Qed.

Lemma true_divide_magnitude a b :
  (0 < b)%Z → a ≠ 0%Z →
  let e0 := Z.max (log2_quotient (Z.abs a) b - 52) (-1074) in
  let m0 := round_half_even (fst (scale (Z.abs a) b e0)) (snd (scale (Z.abs a) b e0)) in
  match true_divide a b with
  | Ok f =>
      is_finite f = true ∧
      valid_binary 53 1024 f = true ∧
      SF2Q f == inject_Z (cond_Zopp (a <? 0)%Z m0) * 2 ^ e0 ∧
      (Z.even m0 = true → even_mantissa f = true)
  | Raise e => e = OverflowError
  end.
Proof.
  intros Hb Ha.
  assert (Hn : (0 < Z.abs a)%Z) by lia.
  intros e0 m0.
  assert (Hx : inject_Z (Z.abs a) / inject_Z b * inject_Z b == inject_Z (Z.abs a)).
  { assert (HB : 0 < inject_Z b)
      by (pose proof Hb as Hb'; rewrite Zlt_Qlt in Hb'; exact Hb').
    field. lra. }
  pose proof (mantissa_bounds _ _ _ Hn Hb Hx) as [[Hm0 Hm53] Hm52].
  fold e0 in Hm0, Hm53, Hm52. fold m0 in Hm0, Hm53, Hm52.
  assert (He0 : (-1074 <= e0)%Z) by (unfold e0; lia).
  unfold true_divide.
  destruct (Z.eqb_spec b 0) as [?|_]; [lia|].
  destruct (Z.eqb_spec (Z.abs a) 0) as [?|_]; [lia|].
  replace (b <? 0)%Z with false by (symmetry; apply Z.ltb_ge; lia).
  rewrite xorb_false_r, (Z.abs_eq b) by lia. fold e0.
  destruct (scale (Z.abs a) b e0) as [n' d'] eqn:Hs.
  cbn [fst snd] in m0. fold m0.
  destruct (Z.eqb_spec m0 (2 ^ 53)) as [H53|H53].
  - destruct (Z.eqb_spec (2 ^ 52) 0) as [?|_]; [discriminate|].
    destruct (Z.ltb_spec 971 (e0 + 1)) as [?|He]; [reflexivity|].
    split; [reflexivity|]. split; [|split; [|reflexivity]].
    + apply valid_binary64; [reflexivity | lia | right; reflexivity].
    + cbn [SF2Q]. rewrite H53, pow2_succ. apply carry_value.
  - destruct (Z.eqb_spec m0 0) as [H0|H0].
    + split; [reflexivity|]. split; [reflexivity|]. split; [|reflexivity].
      cbn [SF2Q]. rewrite H0.
      destruct (a <? 0)%Z; cbn [cond_Zopp Z.opp]; symmetry; apply Qmult_0_l.
    + destruct (Z.ltb_spec 971 e0) as [?|He]; [reflexivity|].
      split; [reflexivity|]. split; [|split].
      * apply valid_binary64; rewrite ?Z2Pos.id by lia; [lia | lia |].
        destruct (Z.eq_dec e0 (-1074)); [left; assumption | right; apply Hm52; lia].
      * cbn [SF2Q].
        assert (Hid : Zpos (Z.to_pos m0) = m0) by (apply Z2Pos.id; lia).
        destruct (a <? 0)%Z; cbn [cond_Zopp];
          [change (Zneg (Z.to_pos m0)) with (- Zpos (Z.to_pos m0))%Z|];
          rewrite Hid; reflexivity.
      * cbn [even_mantissa]. rewrite Z2Pos.id by lia. trivial.
Qed.

Lemma on_grid_opp M k : on_grid M k → on_grid (- M) k.
Proof. unfold on_grid. lia. Qed.

Lemma signed_nearest (s : bool) V x vf :
  vf == (if s then - V else V) →
  (∀ M k, on_grid M k →
     Qabs (V - (if s then - x else x)) <=
     Qabs (inject_Z M * 2 ^ k - (if s then - x else x))) →
  ∀ M k, on_grid M k → Qabs (vf - x) <= Qabs (inject_Z M * 2 ^ k - x).
Proof.
  intros Hv H M k HM. rewrite Hv. destruct s; [|exact (H M k HM)].
  specialize (H (- M)%Z k (on_grid_opp _ _ HM)). rewrite inject_Z_opp in H.
  assert (E1 : - V - x == - (V - - x)) by ring.
  assert (E2 : inject_Z M * 2 ^ k - x == - (- inject_Z M * 2 ^ k - - x)) by ring.
  rewrite E1, E2, !Qabs_opp. exact H.
Qed.

Lemma signed_tie (s : bool) V x vf (even : bool) :
  vf == (if s then - V else V) →
  (∀ M k, on_grid M k →
     Qabs (inject_Z M * 2 ^ k - (if s then - x else x)) ==
     Qabs (V - (if s then - x else x)) →
     inject_Z M * 2 ^ k == V ∨ even = true) →
  ∀ M k, on_grid M k →
    Qabs (inject_Z M * 2 ^ k - x) == Qabs (vf - x) →
    inject_Z M * 2 ^ k == vf ∨ even = true.
Proof.
  intros Hv H M k HM. rewrite Hv. destruct s; [|exact (H M k HM)].
  specialize (H (- M)%Z k (on_grid_opp _ _ HM)). rewrite inject_Z_opp in H.
  assert (E1 : - V - x == - (V - - x)) by ring.
  assert (E2 : inject_Z M * 2 ^ k - x == - (- inject_Z M * 2 ^ k - - x)) by ring.
  rewrite E1, E2, !Qabs_opp. intros Heq.
  destruct (H Heq) as [Hl|Hr]; [left|right; exact Hr].
  rewrite <- Hl. ring.
Qed.

Lemma Qabs_zero q : Qabs q == 0 → q == 0.
Proof.
  intros H. pose proof (Qle_Qabs q) as H1. pose proof (Qle_Qabs (- q)) as H2.
  rewrite Qabs_opp in H2. lra.
Qed.

(** The float that [a / b] returns is the binary64 number nearest to the
    exact quotient, ties to even. *)
Theorem true_divide_correctly_rounded a b x f :
  (0 < b)%Z →
  x * inject_Z b == inject_Z a →
  true_divide a b = Ok f →
  binary64_of f x.
Proof.
  intros Hb Hx Hdiv. unfold binary64_of.
  assert (HB : 0 < inject_Z b)
    by (pose proof Hb as Hb'; rewrite Zlt_Qlt in Hb'; exact Hb').
  destruct (Z.eq_dec a 0) as [->|Ha].
  - assert (Hx0 : x == 0).
    { apply (Qmult_inj_r _ _ (inject_Z b)); [lra|]. rewrite Hx. ring. }
    unfold true_divide in Hdiv.
    destruct (Z.eqb_spec b 0) as [?|_]; [lia|].
    cbn in Hdiv. injection Hdiv as <-.
    split; [reflexivity|]. split; [reflexivity|]. cbn [SF2Q].
    assert (E : 0 - x == 0) by (rewrite Hx0; ring).
    split.
    + intros M k _. rewrite E. apply Qabs_nonneg.
    + intros M k _ Heq. left. rewrite E in Heq. apply Qabs_zero in Heq.
      rewrite Hx0 in Heq. lra.
  - pose proof (true_divide_magnitude a b Hb Ha) as Hmag.
    cbv zeta in Hmag. rewrite Hdiv in Hmag.
    set (e0 := Z.max (log2_quotient (Z.abs a) b - 52) (-1074)) in *.
    set (m0 := round_half_even (fst (scale (Z.abs a) b e0))
                 (snd (scale (Z.abs a) b e0))) in *.
    destruct Hmag as (Hfin & Hval & Hv & Hev).
    split; [exact Hfin|]. split; [exact Hval|].
    assert (Hn : (0 < Z.abs a)%Z) by lia.
    set (s := (a <? 0)%Z) in *.
    assert (Hv' : SF2Q f == (if s then - (inject_Z m0 * 2 ^ e0)
                             else inject_Z m0 * 2 ^ e0)).
    { rewrite Hv. destruct s; cbn [cond_Zopp]; [rewrite inject_Z_opp; ring|reflexivity]. }
    assert (Hx' : (if s then - x else x) * inject_Z b == inject_Z (Z.abs a)).
    { unfold s. destruct (Z.ltb_spec a 0).
      - rewrite Z.abs_neq, inject_Z_opp by lia. rewrite <- Hx. ring.
      - rewrite Z.abs_eq by lia. exact Hx. }
    split.
    + apply (signed_nearest s _ _ _ Hv'). intros M k [HM Hk].
      exact (mantissa_nearest _ _ _ Hn Hb Hx' M k HM Hk).
    + apply (signed_tie s _ _ _ _ Hv'). intros M k [HM Hk] Heq.
      destruct (mantissa_tie _ _ _ Hn Hb Hx' M k HM Hk Heq) as [Hl|Hr];
        [left; exact Hl | right; apply Hev; exact Hr].
Qed.

Local Open Scope Z_scope.

(** Within the range of the date-times of the runtime, the division does
    not overflow. *)
Lemma true_divide_in_range a b :
  0 < b → Z.abs a < 2 ^ 62 → ∃ f, true_divide a b = Ok f.
Proof.
  intros Hb Ha. unfold true_divide.
  destruct (Z.eqb_spec b 0) as [?|_]; [lia|].
  destruct (Z.eqb_spec (Z.abs a) 0) as [?|Hne]; [eauto|].
  set (e0 := Z.max (log2_quotient (Z.abs a) (Z.abs b) - 52) (-1074)).
  assert (He : e0 + 1 <= 971).
  { assert (Z.log2 (Z.abs a) < 62) by (apply Z.log2_lt_pow2; lia).
    pose proof (Z.log2_nonneg (Z.abs b)).
    unfold e0, log2_quotient.
    destruct (scale (Z.abs a) (Z.abs b) (Z.log2 (Z.abs a) - Z.log2 (Z.abs b)))
      as [n' d'].
    destruct (d' <=? n'); lia. }
  destruct (scale (Z.abs a) (Z.abs b) e0) as [n' d'].
  destruct (round_half_even n' d' =? 2 ^ 53).
  - destruct (Z.eqb_spec (2 ^ 52) 0) as [?|_]; [discriminate|].
    destruct (Z.ltb_spec 971 (e0 + 1)); [lia | eauto].
  - destruct (round_half_even n' d' =? 0); [eauto|].
    destruct (Z.ltb_spec 971 e0); [lia | eauto].
Qed.

End Floats.

(** * Properties *)

Section Properties.

Context {libs : Libraries}.

Local Open Scope list_scope.

(** ** Stepping the generators *)

Ltac run_body :=
  cbv [fetch_next fetch_from_cache_next resume fetch_body
       fetch_from_cache_body fetch_for cache_for get_entries requests_get
       raise_for_status _purge_cache_queue _push_cache_queue
       _flush_cache_queue logger_info emit get_self set_self lift_result
       py_next retrieve mbind mret mthrow M_bind M_ret M_throw];
  cbn [self trace url tag cache cache_queue client set_cache_queue set_cache].

Lemma consume_created {F : Type} (func : M F)
    (next : F → World → step Entry * F * World) f0 fuel w :
  func w = (Ok f0, w) →
  consume (metadata_next func next) fuel MetaCreated w =
  consume (metadata_next func next) fuel (MetaIterating f0) w.
Proof.
  intros Hcall. destruct fuel; [reflexivity|].
  cbn [consume metadata_next]. rewrite Hcall. reflexivity.
Qed.

Lemma fetch_gen_next_created w :
  fetch_gen_next MetaCreated w = metadata_for fetch_next FetchCreated w.
Proof. reflexivity. Qed.

Lemma fetch_from_cache_gen_next_created w :
  fetch_from_cache_gen_next MetaCreated w =
  metadata_for fetch_from_cache_next CacheCreated w.
Proof. reflexivity. Qed.

(** Iterating the decorated generator over an inner generator that
    unrolls to [es]. *)
Lemma consume_unrolls {F : Type} (func : M F)
    (next : F → World → step Entry * F * World) w1 wf f w es :
  unrolls next w1 wf f w es →
  ∀ fuel, (length es < fuel)%nat →
    consume (metadata_next func next) fuel (MetaIterating f) w =
    finish (decorate_all (self w1) es) w1 wf.
Proof.
  induction 1 as [f w f' Hstep | f w f' e es Hstep _ IH];
    intros [|fuel] Hfuel; cbn [length] in Hfuel; try lia;
    cbn [consume metadata_next]; unfold metadata_for; rewrite Hstep.
  - reflexivity.
  - cbn [decorate_all]. destruct (decorate (self w1) e) as [item|err].
    + rewrite IH by lia.
      destruct (decorate_all (self w1) es) as [items [x|]]; reflexivity.
    + reflexivity.
Qed.

Lemma fetch_loop_unrolls w1 es n :
  unrolls fetch_next w1 (logged w1 (TotalEntries (S n + length es)))
    (FetchYielded es n) w1 es.
Proof.
  revert n; induction es as [|e es IH]; intros n.
  - eapply unrolls_nil. run_body. cbn [length]. rewrite Nat.add_0_r.
    reflexivity.
  - eapply unrolls_cons; [reflexivity|].
    cbn [length]. rewrite Nat.add_succ_r. apply (IH (S n)).
Qed.

Lemma cache_loop_unrolls w1 es :
  unrolls fetch_from_cache_next w1 w1 (CacheYielded es) w1 es.
Proof.
  induction es as [|e es IH].
  - eapply unrolls_nil. reflexivity.
  - eapply unrolls_cons; [reflexivity | exact IH].
Qed.

(** The first [next] on a generator of [fetch]: the statements of the
    body down to the loop. *)
Lemma fetch_next_created w :
  fetch_next FetchCreated w =
  match server (client_url (client (self w))) with
  | NoConnection => (Raised ConnectionError, FetchClosed, refused w)
  | Responded req =>
      if bool_decide (400 ≤ status_code req < 600)
      then (Raised (HTTPError (status_code req)), FetchClosed, refused w)
      else resume FetchClosed
             (fetch_for (entries (feedparser_parse (text req))) 0)
             (fetched w req)
  end.
Proof.
  destruct w as [[u t c q cl] tr]. run_body.
  destruct (server (client_url cl)) as [|req]; unfold refused; cbn;
    [rewrite <- !app_assoc; reflexivity|].
  destruct (bool_decide (400 ≤ status_code req < 600));
    cbn; [rewrite <- !app_assoc; reflexivity|].
  unfold fetched, parse_feed.
  destruct c as [c|]; cbn; rewrite <- ?app_assoc; reflexivity.
Qed.

(** [fetch], entered with a server that answers without an error
    status, unrolls to the entries of the parsed answer. *)
Lemma fetch_unrolls w req :
  server (client_url (client (self w))) = Responded req →
  ¬ (400 ≤ status_code req < 600) →
  let es := entries (feedparser_parse (text req)) in
  unrolls fetch_next (fetched w req)
    (logged (fetched w req) (TotalEntries (length es)))
    FetchCreated w es.
Proof.
  intros Hget Hok es.
  assert (Hfirst : fetch_next FetchCreated w =
            resume FetchClosed (fetch_for es 0) (fetched w req)).
  { rewrite fetch_next_created, Hget, bool_decide_eq_false_2 by exact Hok.
    reflexivity. }
  destruct es as [|e es'] eqn:Hes.
  - eapply unrolls_nil. rewrite Hfirst. reflexivity.
  - eapply unrolls_cons; [rewrite Hfirst; reflexivity|].
    apply (fetch_loop_unrolls (fetched w req) es' 0).
Qed.

(** The whole of a [fetch] that gets its answer. *)
Lemma fetch_iterate w req fuel :
  server (client_url (client (self w))) = Responded req →
  ¬ (400 ≤ status_code req < 600) →
  let es := entries (feedparser_parse (text req)) in
  (length es < fuel)%nat →
  iterate fetch fetch_gen_next fuel w =
  finish (decorate_all (self (fetched w req)) es) (fetched w req)
    (logged (fetched w req) (TotalEntries (length es))).
Proof.
  intros Hget Hok es Hfuel. unfold iterate, fetch, fetch_gen_next, metadata.
  cbn [mret M_ret]. rewrite (consume_created _ _ FetchCreated) by reflexivity.
  apply consume_unrolls; [apply fetch_unrolls|]; assumption.
Qed.

(** The whole of a [fetch_from_cache] whose cache has a first record. *)
Lemma fetch_from_cache_iterate w c raw others fuel :
  cache (self w) = Some c →
  records c = raw :: others →
  let es := entries (feedparser_parse raw) in
  (length es < fuel)%nat →
  let w1 := {| self := self w; trace := trace w ++ [EvRetrieve] |} in
  iterate fetch_from_cache fetch_from_cache_gen_next fuel w =
  finish (decorate_all (self w) es) w1 w1.
Proof.
  intros Hc Hrec es Hfuel w1.
  unfold iterate, fetch_from_cache, fetch_from_cache_gen_next, metadata.
  cbn [mret M_ret].
  rewrite (consume_created _ _ CacheCreated) by reflexivity.
  change (self w) with (self w1).
  apply consume_unrolls; [|assumption].
  assert (Hfirst : fetch_from_cache_next CacheCreated w =
            resume CacheClosed (cache_for es) w1).
  { run_body. rewrite Hc. run_body. rewrite Hrec. reflexivity. }
  destruct es as [|e es'] eqn:Hes.
  - eapply unrolls_nil. rewrite Hfirst. reflexivity.
  - eapply unrolls_cons; [rewrite Hfirst; reflexivity|].
    apply cache_loop_unrolls.
Qed.

(** ** Decorating entries *)

Ltac run_decorate :=
  unfold decorate, metadata_id, metadata_updated_on, getitem,
    str_to_datetime, metadata_category;
  cbv [mbind mret result_bind result_ret].

(** The timestamp of a date-time that the parser returned, in a zone
    whose offset lies strictly within 24 hours: the float nearest to the
    seconds from the epoch in Universal Time. *)
Lemma timestamp_parsed published dt :
  dateutil_parse published = Some dt →
  (-86400 < default 0 (utcoffset dt) < 86400)%Z →
  ∃ f,
    timestamp {| clock_us := wall_us dt;
                 offset := default 0 (utcoffset dt) |} = Ok f ∧
    binary64_of f (utc_epoch_seconds dt).
Proof.
  intros Hdt Ho. pose proof (dateutil_range _ _ Hdt) as Hrange.
  unfold datetime_min, datetime_max in Hrange.
  unfold timestamp. cbn [clock_us offset].
  rewrite bool_decide_eq_true_2 by exact Ho.
  assert (Hx : (utc_epoch_seconds dt * inject_Z 1000000 ==
                inject_Z (wall_us dt - default 0 (utcoffset dt) * 1000000)%Z)%Q).
  { destruct dt as [wall [o|]]; unfold utc_epoch_seconds, Qeq; cbn; lia. }
  set (o := default 0 (utcoffset dt)) in *.
  destruct (true_divide_in_range (wall_us dt - o * 1000000) 1000000)
    as [f Hf]; [lia | change (2 ^ 62)%Z with 4611686018427387904%Z; lia |].
  exists f. split; [exact Hf|].
  exact (true_divide_correctly_rounded
           (wall_us dt - o * 1000000) 1000000 _ _ eq_refl Hx Hf).
Qed.

Lemma decorate_well_formed s e :
  well_formed e = true →
  ∃ item, decorate s e = Ok item ∧ item_raw_data item = e ∧
          e !! "link" = Some (item_id item) ∧ item_id item ≠ "".
Proof.
  unfold well_formed.
  destruct (e !! "link") as [l|] eqn:Hl; [|discriminate].
  destruct (e !! "published") as [p|] eqn:Hp; [|discriminate].
  intros [Hne Hdate]%andb_true_iff.
  destruct (dateutil_parse p) as [dt|] eqn:Hdt; [|discriminate].
  apply bool_decide_eq_true in Hdate.
  destruct (timestamp_parsed p dt Hdt Hdate) as (f & Hf & _).
  run_decorate. rewrite Hl, Hp, Hdt, Hf.
  eexists; repeat split; cbn.
  intros ->. discriminate Hne.
Qed.

Lemma decorate_unpublished s e :
  e !! "published" = None →
  ∃ key, decorate s e = Raise (KeyError key).
Proof.
  intros Hp. run_decorate. rewrite Hp.
  destruct (e !! "link"); eauto.
Qed.

Lemma decorate_all_well_formed s es :
  Forall (λ e, well_formed e = true) es →
  ∃ items, decorate_all s es = (items, None) ∧
           map item_raw_data items = es ∧
           Forall2 (λ item e, e !! "link" = Some (item_id item) ∧
                              item_id item ≠ "") items es.
Proof.
  induction 1 as [|e es He _ (items & Hall & Hraw & Hids)].
  - exists []. repeat split. constructor.
  - destruct (decorate_well_formed s e He)
      as (item & Hitem & Hdata & Hlink & Hne).
    exists (item :: items). cbn [decorate_all]. rewrite Hitem, Hall.
    repeat split.
    + cbn [map]. congruence.
    + constructor; [split|]; assumption.
Qed.

(** Decoration stops at the first entry it cannot wrap. *)
Lemma decorate_all_stops s pre bad post err :
  decorate s bad = Raise err →
  ∃ items err',
    decorate_all s (pre ++ bad :: post) = (items, Some err') ∧
    map item_raw_data items `prefix_of` pre ∧
    (Forall (λ e, well_formed e = true) pre →
     map item_raw_data items = pre ∧ err' = generator_raise err).
Proof.
  intros Hbad. induction pre as [|e pre (items & err' & Hall & Hpre & Hwf)].
  - exists [], (generator_raise err). cbn [app decorate_all].
    rewrite Hbad. repeat split. apply prefix_nil.
  - cbn [app decorate_all].
    destruct (decorate s e) as [item|erre] eqn:He.
    + exists (item :: items), err'. rewrite Hall. split; [reflexivity|].
      assert (Hdata : item_raw_data item = e).
      { revert He. run_decorate.
        destruct (e !! "link"); [|discriminate].
        destruct (e !! "published") as [p|]; [|discriminate].
        destruct (dateutil_parse p); [|discriminate].
        destruct (timestamp _); [|discriminate].
        intros [= <-]. reflexivity. }
      split.
      * cbn [map]. rewrite Hdata. apply prefix_cons, Hpre.
      * intros [_ Hrest]%Forall_cons. destruct (Hwf Hrest) as [Hraw ->].
        cbn [map]. rewrite Hdata, Hraw. split; reflexivity.
    + exists [], (generator_raise erre). split; [reflexivity|]. split.
      * apply prefix_nil.
      * intros [He' _]%Forall_cons. exfalso.
        destruct (decorate_well_formed s e He') as (item & Hitem & _).
        congruence.
Qed.

(** ** The contract of [fetch] *)

(** C3. For every valid feed document with N well-formed entries, a
    [fetch] whose GET is answered with that document yields exactly N
    items and completes; the items come in feed order, one per entry,
    and the id of each is the link of its entry, which is not empty. *)
Theorem fetch_yields_every_entry w req fuel :
  server (client_url (client (self w))) = Responded req →
  ¬ (400 ≤ status_code req < 600) →
  Forall (λ e, well_formed e = true)
    (entries (feedparser_parse (text req))) →
  (length (entries (feedparser_parse (text req))) < fuel)%nat →
  ∃ items w',
    iterate fetch fetch_gen_next fuel w = (items, Completed, w') ∧
    length items = length (entries (feedparser_parse (text req))) ∧
    map item_raw_data items = entries (feedparser_parse (text req)) ∧
    Forall2 (λ item e, e !! "link" = Some (item_id item) ∧
                       item_id item ≠ "")
      items (entries (feedparser_parse (text req))).
Proof.
  intros Hget Hok Hwf Hfuel.
  rewrite (fetch_iterate w req fuel Hget Hok Hfuel).
  destruct (decorate_all_well_formed (self (fetched w req)) _ Hwf)
    as (items & -> & Hraw & Hids).
  exists items. eexists. split; [reflexivity|].
  split; [|split; assumption].
  rewrite <- Hraw. symmetry. apply length_map.
Qed.

(** C1 (amended). For every feed in which some entry lacks the
    'published' field, [fetch] fails and does not skip that entry: the
    items it yields before it raises are those of entries that precede
    the entry, in feed order, and nothing at or after the entry is
    yielded.  When the entries before it are well formed, all of their
    items are yielded first and the error is the one that the entry
    raises; the payload has been committed to the cache by then. *)
Theorem fetch_unpublished_entry w req fuel
    (pre : list (gmap string string)) bad post :
  server (client_url (client (self w))) = Responded req →
  ¬ (400 ≤ status_code req < 600) →
  entries (feedparser_parse (text req)) = (pre ++ bad :: post) →
  bad !! "published" = None →
  (length (pre ++ bad :: post) < fuel)%nat →
  ∃ items err,
    iterate fetch fetch_gen_next fuel w =
      (items, Failed err, fetched w req) ∧
    map item_raw_data items `prefix_of` pre ∧
    (Forall (λ e, well_formed e = true) pre →
     map item_raw_data items = pre ∧
     decorate (self (fetched w req)) bad = Raise err).
Proof.
  intros Hget Hok Hes Hbad Hfuel.
  rewrite <- Hes in Hfuel.
  rewrite (fetch_iterate w req fuel Hget Hok Hfuel), Hes.
  destruct (decorate_unpublished (self (fetched w req)) bad Hbad)
    as [key Hkey].
  destruct (decorate_all_stops _ pre bad post _ Hkey)
    as (items & err' & -> & Hpre & Hwf).
  exists items, err'. split; [reflexivity|]. split; [exact Hpre|].
  intros Hall. destruct (Hwf Hall) as [Hraw ->].
  split; [exact Hraw | exact Hkey].
Qed.

(** C4. For every HTTP response with an error status (4xx or 5xx),
    [fetch] raises the HTTP-status error on the first [next] and yields
    nothing; the call purges the queue and issues the GET and does
    nothing else: no record is staged, the queue is not flushed, the
    cache keeps its records, and the queue is left empty.  The purge
    comes again at the start of the next call. *)
Theorem fetch_http_error w req fuel :
  server (client_url (client (self w))) = Responded req →
  400 ≤ status_code req < 600 →
  (0 < fuel)%nat →
  iterate fetch fetch_gen_next fuel w =
    ([], Failed (HTTPError (status_code req)), refused w) ∧
  trace (refused w) =
    trace w ++ [EvLog (LookingForEntries (url (self w))); EvPurge;
                EvGet (client_url (client (self w)))] ∧
  List.filter is_cache_write (trace (refused w)) =
    List.filter is_cache_write (trace w) ∧
  cache (self (refused w)) = cache (self w) ∧
  cache_queue (self (refused w)) = [] ∧
  ∃ rest,
    trace (fetch_gen_next MetaCreated (refused w)).2 =
    trace (refused w) ++
      EvLog (LookingForEntries (url (self w))) :: EvPurge :: rest.
Proof.
  intros Hget Hbad Hfuel.
  assert (Hnext : ∀ w0,
    server (client_url (client (self w0))) = Responded req →
    fetch_gen_next MetaCreated w0 =
      (Raised (HTTPError (status_code req)), MetaClosed, refused w0)).
  { intros w0 Hget0. rewrite fetch_gen_next_created.
    unfold metadata_for.
    rewrite fetch_next_created, Hget0, bool_decide_eq_true_2 by exact Hbad.
    reflexivity. }
  repeat split.
  - destruct fuel as [|fuel]; [lia|].
    unfold iterate, fetch, metadata. cbn [mret M_ret consume].
    rewrite (Hnext w Hget). reflexivity.
  - cbn [refused trace]. rewrite List.filter_app. cbn.
    apply app_nil_r.
  - rewrite (Hnext (refused w)) by exact Hget.
    eexists. reflexivity.
Qed.

(** ** The contract of [fetch_from_cache] *)

(** C6. For every connector without a cache, [fetch_from_cache] fails
    with [CacheError] and yields no item; nothing else happens. *)
Theorem fetch_from_cache_without_cache w fuel :
  cache (self w) = None →
  (0 < fuel)%nat →
  iterate fetch_from_cache fetch_from_cache_gen_next fuel w =
    ([], Failed (CacheError "cache instance was not provided"), w).
Proof.
  intros Hc Hfuel. destruct fuel as [|fuel]; [lia|].
  unfold iterate, fetch_from_cache, metadata.
  cbn [mret M_ret consume]. rewrite fetch_from_cache_gen_next_created.
  unfold metadata_for. run_body. rewrite Hc. reflexivity.
Qed.

(** C10. For every connector whose cache is configured and holds no
    record, [fetch_from_cache] does not complete with an empty
    sequence: taking the first record of the empty retrieval raises
    [StopIteration] inside the generator, which reaches the caller as a
    [RuntimeError] before any item is yielded. *)
Theorem fetch_from_cache_empty_cache w c fuel :
  cache (self w) = Some c →
  records c = [] →
  (0 < fuel)%nat →
  iterate fetch_from_cache fetch_from_cache_gen_next fuel w =
    ([], Failed (RuntimeError "generator raised StopIteration"),
     {| self := self w; trace := trace w ++ [EvRetrieve] |}) ∧
  (iterate fetch_from_cache fetch_from_cache_gen_next fuel w).1.2
    ≠ Completed.
Proof.
  intros Hc Hrec Hfuel. destruct fuel as [|fuel]; [lia|].
  assert (Hrun : iterate fetch_from_cache fetch_from_cache_gen_next
                   (S fuel) w =
    ([], Failed (RuntimeError "generator raised StopIteration"),
     {| self := self w; trace := trace w ++ [EvRetrieve] |})).
  { unfold iterate, fetch_from_cache, metadata.
    cbn [mret M_ret consume]. rewrite fetch_from_cache_gen_next_created.
    unfold metadata_for. run_body. rewrite Hc. run_body. rewrite Hrec.
    reflexivity. }
  rewrite Hrun. split; [reflexivity | discriminate].
Qed.

(** C2 (amended). For every feed whose body a [fetch] cached in a cache
    that held no record before, a subsequent [fetch_from_cache] on the
    same connector yields the very items the [fetch] yielded, in the
    same order, and ends as it ended; it reads the cache and performs
    no HTTP request. *)
Theorem fetch_from_cache_replays_fetch w c req fuel fuel' :
  cache (self w) = Some c →
  records c = [] →
  server (client_url (client (self w))) = Responded req →
  ¬ (400 ≤ status_code req < 600) →
  (length (entries (feedparser_parse (text req))) < fuel)%nat →
  (length (entries (feedparser_parse (text req))) < fuel')%nat →
  ∃ items e w1 w2,
    iterate fetch fetch_gen_next fuel w = (items, e, w1) ∧
    cache (self w1) = Some {| records := [text req] |} ∧
    iterate fetch_from_cache fetch_from_cache_gen_next fuel' w1 =
      (items, e, w2) ∧
    e ≠ Pending ∧
    trace w2 = trace w1 ++ [EvRetrieve] ∧
    requests_made (trace w2) = requests_made (trace w1).
Proof.
  intros Hc Hrec Hget Hok Hfuel Hfuel'.
  rewrite (fetch_iterate w req fuel Hget Hok Hfuel).
  set (es := entries (feedparser_parse (text req))) in *.
  set (w1 := fetched w req).
  assert (Hcache : cache (self w1) = Some {| records := [text req] |}).
  { unfold w1, fetched. rewrite Hc. cbn. unfold store. rewrite Hrec.
    reflexivity. }
  assert (Hreplay : ∀ w', self w' = self w1 →
    iterate fetch_from_cache fetch_from_cache_gen_next fuel' w' =
    finish (decorate_all (self w1) es)
      {| self := self w'; trace := trace w' ++ [EvRetrieve] |}
      {| self := self w'; trace := trace w' ++ [EvRetrieve] |}).
  { intros w' Hself. rewrite <- Hself.
    apply (fetch_from_cache_iterate w' {| records := [text req] |}
             (text req) []);
      [rewrite Hself; exact Hcache | reflexivity | exact Hfuel']. }
  assert (Hcount : ∀ t, requests_made (t ++ [EvRetrieve]) = requests_made t).
  { intros t. unfold requests_made. rewrite List.filter_app. cbn.
    rewrite app_nil_r. reflexivity. }
  destruct (decorate_all (self w1) es) as [items [err|]] eqn:Hall;
    cbn [finish].
  - exists items, (Failed err), w1. eexists.
    split; [reflexivity|]. split; [exact Hcache|].
    split; [rewrite (Hreplay w1 eq_refl), ?Hall; reflexivity|].
    split; [discriminate|]. split; [reflexivity | apply Hcount].
  - exists items, Completed, (logged w1 (TotalEntries (length es))).
    eexists. split; [reflexivity|]. split; [exact Hcache|].
    split; [rewrite (Hreplay (logged w1 _) eq_refl), ?Hall; reflexivity|].
    split; [discriminate|]. split; [reflexivity | apply Hcount].
Qed.

(** ** Laziness *)

Lemma fetched_trace w req :
  ∃ rest,
    trace (fetched w req) =
    trace w ++ EvLog (LookingForEntries (url (self w))) :: EvPurge ::
               EvGet (client_url (client (self w))) :: rest.
Proof.
  unfold fetched. destruct (cache (self w)); eexists; reflexivity.
Qed.

Lemma fetch_first_next_trace w :
  ∃ rest,
    trace (fetch_gen_next MetaCreated w).2 =
    trace w ++ EvLog (LookingForEntries (url (self w))) :: EvPurge ::
               EvGet (client_url (client (self w))) :: rest.
Proof.
  rewrite fetch_gen_next_created. unfold metadata_for.
  rewrite fetch_next_created.
  destruct (server (client_url (client (self w)))) as [|req];
    [exists []; reflexivity|].
  destruct (bool_decide (400 ≤ status_code req < 600));
    [exists []; reflexivity|].
  destruct (fetched_trace w req) as [rest Hrest].
  destruct (entries (feedparser_parse (text req))) as [|e es].
  - exists (rest ++ [EvLog (TotalEntries 0)]). run_body. cbn -[fetched].
    rewrite Hrest, <- app_assoc. reflexivity.
  - exists rest. run_body. cbn -[fetched decorate].
    destruct (decorate (self (fetched w req)) e); exact Hrest.
Qed.

Lemma fetch_from_cache_first_next_trace w c :
  cache (self w) = Some c →
  trace (fetch_from_cache_gen_next MetaCreated w).2 =
  trace w ++ [EvRetrieve].
Proof.
  intros Hc. rewrite fetch_from_cache_gen_next_created.
  unfold metadata_for. run_body. rewrite Hc. run_body.
  destruct (records c) as [|raw others]; [reflexivity|].
  destruct (entries (feedparser_parse raw)) as [|e es]; [reflexivity|].
  cbn -[decorate]. destruct (decorate _ e); reflexivity.
Qed.

(** C9. Calling [fetch] or [fetch_from_cache] only makes a generator,
    with the decorator as without it: the call raises nothing and leaves
    the connector and the trace of effects as they were.  The effects
    come with the first [next]: for [fetch] the purge of the queue and
    the GET, for [fetch_from_cache] the check that raises [CacheError]
    when there is no cache, and the retrieval from the cache when there
    is one. *)
Theorem generators_are_lazy w :
  fetch_func w = (Ok FetchCreated, w) ∧
  fetch_from_cache_func w = (Ok CacheCreated, w) ∧
  fetch w = (Ok MetaCreated, w) ∧
  fetch_from_cache w = (Ok MetaCreated, w) ∧
  (∃ rest,
     trace (fetch_gen_next MetaCreated w).2 =
     trace w ++ EvLog (LookingForEntries (url (self w))) :: EvPurge ::
                EvGet (client_url (client (self w))) :: rest) ∧
  match cache (self w) with
  | None =>
      fetch_from_cache_gen_next MetaCreated w =
      (Raised (CacheError "cache instance was not provided"),
       MetaClosed, w)
  | Some _ =>
      trace (fetch_from_cache_gen_next MetaCreated w).2 =
      trace w ++ [EvRetrieve]
  end.
Proof.
  do 4 (split; [reflexivity|]).
  split; [apply fetch_first_next_trace|].
  destruct (cache (self w)) as [c|] eqn:Hc.
  - apply (fetch_from_cache_first_next_trace w c Hc).
  - rewrite fetch_from_cache_gen_next_created.
    unfold metadata_for. run_body. rewrite Hc. reflexivity.
Qed.

(** ** Metadata and capabilities *)


(** C7. For every entry, [metadata_category] returns the constant string
    "entry", whatever the entry holds. *)
Theorem metadata_category_is_entry (e e' : gmap string string) :
  metadata_category e = "entry" ∧
  metadata_category e = metadata_category e'.
Proof. split; reflexivity. Qed.

(** C8. The capability queries are constants: for every connector, in
    every state, [has_caching] answers true and [has_resuming] answers
    false. *)
Theorem capabilities_are_constant (w : World) :
  has_caching (class_of (self w)) = true ∧
  has_resuming (class_of (self w)) = false.
Proof. split; reflexivity. Qed.

(** * Further properties of the code *)

(** ** Iterating the generators without the decorator *)

(** A caller that exhausts a generator that unrolls to [es] collects
    [es]. *)
Lemma consume_unrolled {F : Type}
    (next : F → World → step (gmap string string) * F * World)
    w1 wf f w es :
  unrolls next w1 wf f w es →
  ∀ fuel, (length es < fuel)%nat →
    consume next fuel f w = (es, Completed, wf).
Proof.
  induction 1 as [f w f' Hstep | f w f' e es Hstep _ IH];
    intros [|fuel] Hfuel; cbn [length] in Hfuel; try lia;
    cbn [consume]; rewrite Hstep; [reflexivity|].
  rewrite IH by lia. reflexivity.
Qed.

(** A caller that stops after [fuel] items has the first [fuel]
    entries, and the generator is where the last [yield] left it. *)
Lemma consume_unrolled_take {F : Type}
    (next : F → World → step (gmap string string) * F * World)
    w1 wf f w es :
  unrolls next w1 wf f w es →
  ∀ fuel, (0 < fuel ≤ length es)%nat →
    consume next fuel f w = (take fuel es, Pending, w1).
Proof.
  induction 1 as [f w f' Hstep | f w f' e es Hstep _ IH];
    intros [|fuel] Hfuel; cbn [length] in Hfuel; try lia.
  cbn [consume take]. rewrite Hstep.
  destruct fuel as [|fuel]; [reflexivity|].
  rewrite IH by lia. reflexivity.
Qed.

(** Once in its loop, [fetch] changes the world only by the log record
    of its last statement. *)
Lemma fetch_loop_world fuel :
  ∀ es n w1,
    (consume fetch_next fuel (FetchYielded es n) w1).2 = w1 ∨
    ∃ k, (consume fetch_next fuel (FetchYielded es n) w1).2 =
         logged w1 (TotalEntries k).
Proof.
  induction fuel as [|fuel IH]; intros es n w1; [left; reflexivity|].
  destruct es as [|e es].
  - right. exists (S n). reflexivity.
  - cbn [consume].
    change (fetch_next (FetchYielded (e :: es) n) w1)
      with (Yielded e, FetchYielded es (S n), w1).
    cbn iota beta.
    destruct (IH es (S n) w1) as [Hw | [k Hw]];
      destruct (consume fetch_next fuel (FetchYielded es (S n)) w1)
        as [[l x] w'']; cbn [snd] in *; subst; eauto.
Qed.

(** The worlds an iteration of [fetch] can leave. *)
Lemma fetch_consume_world w fuel :
  (0 < fuel)%nat →
  (consume fetch_next fuel FetchCreated w).2 = refused w ∨
  ∃ req,
    server (client_url (client (self w))) = Responded req ∧
    ((consume fetch_next fuel FetchCreated w).2 = fetched w req ∨
     ∃ k, (consume fetch_next fuel FetchCreated w).2 =
          logged (fetched w req) (TotalEntries k)).
Proof.
  intros Hfuel. destruct fuel as [|fuel]; [lia|].
  cbn [consume]. rewrite fetch_next_created.
  destruct (server (client_url (client (self w)))) as [|req];
    [left; reflexivity|].
  destruct (bool_decide (400 ≤ status_code req < 600));
    [left; reflexivity|].
  right. exists req. split; [reflexivity|].
  destruct (entries (feedparser_parse (text req))) as [|e es].
  - right. exists 0%nat. reflexivity.
  - change (resume FetchClosed (fetch_for (e :: es) 0) (fetched w req))
      with (Yielded e, FetchYielded es 0, fetched w req).
    cbn iota beta.
    destruct (fetch_loop_world fuel es 0%nat (fetched w req))
      as [Hw | [k Hw]];
      destruct (consume fetch_next fuel (FetchYielded es 0) (fetched w req))
        as [[l x] w'']; cbn [snd] in *; subst; eauto.
Qed.

Lemma cache_loop_world fuel :
  ∀ es w1, (consume fetch_from_cache_next fuel (CacheYielded es) w1).2 = w1.
Proof.
  induction fuel as [|fuel IH]; intros es w1; [reflexivity|].
  destruct es as [|e es]; [reflexivity|].
  cbn [consume].
  change (fetch_from_cache_next (CacheYielded (e :: es)) w1)
    with (Yielded e, CacheYielded es, w1).
  cbn iota beta. specialize (IH es w1).
  destruct (consume fetch_from_cache_next fuel (CacheYielded es) w1)
    as [[l x] w'']. exact IH.
Qed.

(** ** The generator of [fetch] *)

(** X1. When the GET is answered without an error status, a caller that
    exhausts the generator of [fetch] receives exactly the entries of the
    parsed answer, in their order and as they are, whatever they hold;
    the total that the last statement logs is their number. *)
Theorem fetch_yields_parsed_entries w req fuel :
  server (client_url (client (self w))) = Responded req →
  ¬ (400 ≤ status_code req < 600) →
  (length (entries (feedparser_parse (text req))) < fuel)%nat →
  consume fetch_next fuel FetchCreated w =
    (entries (feedparser_parse (text req)), Completed,
     logged (fetched w req)
       (TotalEntries (length (entries (feedparser_parse (text req)))))).
Proof.
  intros Hget Hok Hfuel.
  apply (consume_unrolled fetch_next (fetched w req));
    [apply fetch_unrolls|]; assumption.
Qed.

Lemma fetched_totals w req :
  List.filter is_total (trace (fetched w req)) =
  List.filter is_total (trace w).
Proof.
  unfold fetched. destruct (cache (self w)); cbn [trace];
    rewrite !List.filter_app; cbn; rewrite ?app_nil_r; reflexivity.
Qed.

(** X2. A caller that stops after [fuel] items, fewer than or as many as
    the feed has, receives the first [fuel] entries; the payload is
    committed by then, and no total is logged, since the statement after
    the loop is not reached. *)
Theorem fetch_stopped_early w req fuel :
  server (client_url (client (self w))) = Responded req →
  ¬ (400 ≤ status_code req < 600) →
  (0 < fuel ≤ length (entries (feedparser_parse (text req))))%nat →
  consume fetch_next fuel FetchCreated w =
    (take fuel (entries (feedparser_parse (text req))), Pending,
     fetched w req) ∧
  List.filter is_total (trace (fetched w req)) =
    List.filter is_total (trace w).
Proof.
  intros Hget Hok Hfuel. split; [|apply fetched_totals].
  apply (consume_unrolled_take fetch_next (fetched w req)
           (logged (fetched w req)
              (TotalEntries (length (entries (feedparser_parse (text req)))))));
    [apply fetch_unrolls|]; assumption.
Qed.

(** X3. When the server cannot be reached, the first [next] raises the
    connection error of the HTTP layer as it is; nothing is yielded,
    staged or committed, and the queue is left purged. *)
Theorem fetch_no_connection w fuel :
  server (client_url (client (self w))) = NoConnection →
  (0 < fuel)%nat →
  consume fetch_next fuel FetchCreated w =
    ([], Failed ConnectionError, refused w) ∧
  cache (self (refused w)) = cache (self w) ∧
  cache_queue (self (refused w)) = [] ∧
  List.filter is_cache_write (trace (refused w)) =
    List.filter is_cache_write (trace w).
Proof.
  intros Hget Hfuel. destruct fuel as [|fuel]; [lia|].
  split; [|split; [reflexivity|split; [reflexivity|]]].
  - cbn [consume]. rewrite fetch_next_created, Hget. reflexivity.
  - cbn [refused trace]. rewrite List.filter_app. cbn. apply app_nil_r.
Qed.

Lemma refused_gets w :
  List.filter is_get (trace (refused w)) =
  List.filter is_get (trace w) ++ [EvGet (client_url (client (self w)))].
Proof. cbn [refused trace]. rewrite List.filter_app. reflexivity. Qed.

Lemma fetched_gets w req :
  List.filter is_get (trace (fetched w req)) =
  List.filter is_get (trace w) ++ [EvGet (client_url (client (self w)))].
Proof.
  unfold fetched. destruct (cache (self w)); cbn [trace];
    rewrite !List.filter_app; reflexivity.
Qed.

(** X4. However an iteration of [fetch] goes (no connection, an error
    status, an empty feed, a caller that stops early or goes to the
    end), the connector calls its client exactly once: there is one call
    of [requests.get], with the URL the connector was constructed with.
    The requests a library makes inside a call are not counted. *)
Theorem fetch_requests_once w u t c fuel :
  self w = RSS_init u t c →
  (0 < fuel)%nat →
  List.filter is_get (trace (consume fetch_next fuel FetchCreated w).2) =
  List.filter is_get (trace w) ++ [EvGet u].
Proof.
  intros Hself Hfuel.
  assert (Hu : client_url (client (self w)) = u) by (rewrite Hself; reflexivity).
  destruct (fetch_consume_world w fuel Hfuel)
    as [-> | (req & _ & [-> | [k ->]])].
  - rewrite refused_gets, Hu. reflexivity.
  - rewrite fetched_gets, Hu. reflexivity.
  - cbn [logged trace]. rewrite List.filter_app, fetched_gets, Hu.
    cbn. apply app_nil_r.
Qed.

Lemma store_nothing c : store c [] = c.
Proof. destruct c as [rs]. unfold store. cbn. rewrite app_nil_r. reflexivity. Qed.

(** X5. An iteration of [fetch] never changes the URL, the tag or the
    client of the connector, never gives or takes away its cache, and
    never drops or rewrites a record of the cache: the records after it
    are the records before it, followed by at most one record. *)
Theorem fetch_keeps_connector w fuel :
  url (self (consume fetch_next fuel FetchCreated w).2) = url (self w) ∧
  tag (self (consume fetch_next fuel FetchCreated w).2) = tag (self w) ∧
  client (self (consume fetch_next fuel FetchCreated w).2) =
    client (self w) ∧
  ∃ staged,
    (length staged ≤ 1)%nat ∧
    cache (self (consume fetch_next fuel FetchCreated w).2) =
      (λ c, store c staged) <$> cache (self w).
Proof.
  assert (Hrefused : ∃ staged, (length staged ≤ 1)%nat ∧
            cache (self w) = (λ c, store c staged) <$> cache (self w)).
  { exists []. split; [cbn; lia|].
    destruct (cache (self w)) as [c|]; cbn; [|reflexivity].
    rewrite store_nothing. reflexivity. }
  assert (Hfetched : ∀ req, ∃ staged, (length staged ≤ 1)%nat ∧
            cache (self (fetched w req)) =
              (λ c, store c staged) <$> cache (self w)).
  { intros req. exists [text req]. split; [cbn; lia|].
    unfold fetched. destruct (cache (self w)) eqn:Hc; cbn; rewrite ?Hc;
      reflexivity. }
  assert (Hframe : ∀ req,
            url (self (fetched w req)) = url (self w) ∧
            tag (self (fetched w req)) = tag (self w) ∧
            client (self (fetched w req)) = client (self w)).
  { intros req. unfold fetched. destruct (cache (self w)); repeat split. }
  destruct fuel as [|fuel]; [repeat split; exact Hrefused|].
  destruct (fetch_consume_world w (S fuel) ltac:(lia))
    as [-> | (req & _ & [-> | [k ->]])].
  - repeat split. exact Hrefused.
  - destruct (Hframe req) as (Hu & Ht & Hcl).
    split; [exact Hu|]. split; [exact Ht|]. split; [exact Hcl|].
    apply Hfetched.
  - destruct (Hframe req) as (Hu & Ht & Hcl).
    split; [exact Hu|]. split; [exact Ht|]. split; [exact Hcl|].
    apply Hfetched.
Qed.

(** X6. With a cache, a GET answered without an error status is
    committed on the first [next], before any entry reaches the caller:
    the cache then holds its former records followed by the body, and the
    queue is empty.  Whatever was left staged before the call is purged,
    not committed: the body is all that is pushed and flushed. *)
Theorem fetch_commits_before_first_yield w c req :
  cache (self w) = Some c →
  server (client_url (client (self w))) = Responded req →
  ¬ (400 ≤ status_code req < 600) →
  cache (self (fetch_next FetchCreated w).2) =
    Some {| records := records c ++ [text req] |} ∧
  cache_queue (self (fetch_next FetchCreated w).2) = [] ∧
  List.filter is_cache_write (trace (fetch_next FetchCreated w).2) =
    List.filter is_cache_write (trace w) ++
    [EvPush (text req); EvFlush [text req]].
Proof.
  intros Hc Hget Hok.
  assert (Hw : (fetch_next FetchCreated w).2 = fetched w req ∨
               ∃ k, (fetch_next FetchCreated w).2 =
                    logged (fetched w req) (TotalEntries k)).
  { rewrite fetch_next_created, Hget, bool_decide_eq_false_2 by exact Hok.
    destruct (entries (feedparser_parse (text req))) as [|e es];
      [right; exists 0%nat|left]; reflexivity. }
  assert (Hwrites :
    List.filter is_cache_write (trace (fetched w req)) =
    List.filter is_cache_write (trace w) ++
    [EvPush (text req); EvFlush [text req]]).
  { unfold fetched. rewrite Hc. cbn [trace].
    rewrite !List.filter_app. reflexivity. }
  assert (Hcache : cache (self (fetched w req)) =
                   Some {| records := records c ++ [text req] |}).
  { unfold fetched. rewrite Hc. reflexivity. }
  assert (Hqueue : cache_queue (self (fetched w req)) = []).
  { unfold fetched. rewrite Hc. reflexivity. }
  destruct Hw as [-> | [k ->]]; (split; [|split]); auto.
  cbn [logged trace]. rewrite List.filter_app, Hwrites. cbn.
  apply app_nil_r.
Qed.

(** X7. What a failed run left staged in the queue has no influence on
    [fetch]: started with any queue, the iteration yields the same
    entries, ends the same way and leaves the same connector, cache and
    trace as started with an empty queue. *)
Theorem fetch_ignores_stale_queue w q fuel :
  (0 < fuel)%nat →
  consume fetch_next fuel FetchCreated (restage w q) =
  consume fetch_next fuel FetchCreated (restage w []).
Proof.
  intros Hfuel. destruct fuel as [|fuel]; [lia|].
  cbn [consume]. rewrite !fetch_next_created.
  destruct w as [[u t c0 q0 cl] tr].
  replace (refused (restage {| self := Build_RSS u t c0 q0 cl; trace := tr |} q))
    with (refused (restage {| self := Build_RSS u t c0 q0 cl; trace := tr |} []))
    by reflexivity.
  cbn [restage self client set_cache_queue].
  destruct (server (client_url cl)) as [|req]; [reflexivity|].
  destruct (bool_decide (400 ≤ status_code req < 600)); [reflexivity|].
  destruct c0; reflexivity.
Qed.

(** ** The generator of [fetch_from_cache] *)

(** The first [next] on a generator of [fetch_from_cache]. *)
Lemma fetch_from_cache_next_created w :
  fetch_from_cache_next CacheCreated w =
  match cache (self w) with
  | None =>
      (Raised (CacheError "cache instance was not provided"), CacheClosed, w)
  | Some c =>
      match retrieve c with
      | [] =>
          (Raised (RuntimeError "generator raised StopIteration"),
           CacheClosed, retrieved w)
      | raw :: _ =>
          resume CacheClosed (cache_for (entries (feedparser_parse raw)))
            (retrieved w)
      end
  end.
Proof.
  run_body. destruct (cache (self w)) as [c|]; [|reflexivity].
  run_body. destruct (records c); reflexivity.
Qed.

(** X8. With a cache that holds records, a caller that exhausts the
    generator of [fetch_from_cache] receives exactly the entries of the
    first record, in their order; the records behind the first one are
    not read and have no influence. *)
Theorem fetch_from_cache_first_record w c raw others fuel :
  cache (self w) = Some c →
  records c = raw :: others →
  (length (entries (feedparser_parse raw)) < fuel)%nat →
  consume fetch_from_cache_next fuel CacheCreated w =
    (entries (feedparser_parse raw), Completed, retrieved w).
Proof.
  intros Hc Hrec Hfuel.
  apply (consume_unrolled fetch_from_cache_next (retrieved w));
    [|exact Hfuel].
  assert (Hfirst : fetch_from_cache_next CacheCreated w =
            resume CacheClosed (cache_for (entries (feedparser_parse raw)))
              (retrieved w)).
  { rewrite fetch_from_cache_next_created, Hc. unfold retrieve.
    rewrite Hrec. reflexivity. }
  destruct (entries (feedparser_parse raw)) as [|e es].
  - eapply unrolls_nil. rewrite Hfirst. reflexivity.
  - eapply unrolls_cons; [rewrite Hfirst; reflexivity|].
    apply cache_loop_unrolls.
Qed.

(** However far the caller iterates and whatever the cache holds, an
    iteration of [fetch_from_cache] leaves the world as it was, but for
    at most one retrieval from the cache. *)
Lemma fetch_from_cache_world w fuel :
  (consume fetch_from_cache_next fuel CacheCreated w).2 = w ∨
  (consume fetch_from_cache_next fuel CacheCreated w).2 = retrieved w.
Proof.
  destruct fuel as [|fuel]; [left; reflexivity|].
  cbn [consume]. rewrite fetch_from_cache_next_created.
  destruct (cache (self w)) as [c|]; [|left; reflexivity].
  destruct (retrieve c) as [|raw others]; [right; reflexivity|].
  destruct (entries (feedparser_parse raw)) as [|e es];
    [right; reflexivity|].
  right.
  change (resume CacheClosed (cache_for (e :: es)) (retrieved w))
    with (Yielded e, CacheYielded es, retrieved w).
  cbn iota beta.
  pose proof (cache_loop_world fuel es (retrieved w)) as Hw.
  destruct (consume fetch_from_cache_next fuel (CacheYielded es) (retrieved w))
    as [[l x] w'']. exact Hw.
Qed.

(** X9. [fetch_from_cache] leaves the connector as it found it: however
    far the caller iterates and whatever the cache holds (none, no
    record, or records), the URL, the tag, the client, the cache and the
    queue are as before, the connector does not call its client (no call
    of [requests.get]), and it stages and commits nothing. *)
Theorem fetch_from_cache_only_reads w fuel :
  self (consume fetch_from_cache_next fuel CacheCreated w).2 = self w ∧
  List.filter is_get
    (trace (consume fetch_from_cache_next fuel CacheCreated w).2) =
    List.filter is_get (trace w) ∧
  List.filter is_cache_write
    (trace (consume fetch_from_cache_next fuel CacheCreated w).2) =
    List.filter is_cache_write (trace w).
Proof.
  destruct (fetch_from_cache_world w fuel) as [-> | ->];
    [repeat split|].
  cbn [retrieved self trace]. rewrite !List.filter_app. cbn.
  rewrite !app_nil_r. repeat split.
Qed.

(** ** The client and the identifier *)

(** X10. [get_entries] returns a body exactly when the server answers
    with a status that is not a client or server error, and the body is
    then the text of the answer, as it is; the connector is not touched
    and one GET on the URL of the client is made. *)
Theorem get_entries_returns_body c w body w' :
  get_entries c w = (Ok body, w') ↔
  ∃ req,
    server (client_url c) = Responded req ∧
    ¬ (400 ≤ status_code req < 600) ∧
    body = text req ∧
    w' = {| self := self w; trace := trace w ++ [EvGet (client_url c)] |}.
Proof.
  unfold get_entries, requests_get, raise_for_status.
  cbv [mbind mret mthrow M_bind M_ret M_throw emit].
  destruct (server (client_url c)) as [|req].
  - split; [discriminate | intros (req & [=] & _)].
  - destruct (bool_decide_reflect (400 ≤ status_code req < 600)) as [Hbad|Hok].
    + split; [discriminate | intros (req' & [= <-] & Hok & _); contradiction].
    + split.
      * intros [= <- <-]. exists req. repeat split. exact Hok.
      * intros (req' & [= <-] & _ & -> & ->). reflexivity.
Qed.

(** X11. The identifier of an entry is its link and nothing else:
    setting the link sets the identifier, removing the link makes
    [metadata_id] raise [KeyError], and setting or removing any other
    field leaves the identifier as it was. *)
Theorem metadata_id_follows_link (item : gmap string string) k v :
  k ≠ "link" →
  metadata_id (<["link" := v]> item) = Ok v ∧
  metadata_id (delete "link" item) = Raise (KeyError "link") ∧
  metadata_id (<[k := v]> item) = metadata_id item ∧
  metadata_id (delete k item) = metadata_id item.
Proof.
  intros Hk. unfold metadata_id, getitem.
  cbv [mbind mret result_bind result_ret].
  rewrite lookup_insert_eq, lookup_delete_eq.
  rewrite lookup_insert_ne, lookup_delete_ne by exact Hk.
  repeat split.
Qed.

(** ** A failed fetch and the cache *)

Lemma cache_loop_items fuel :
  ∀ es w1 w2,
    (consume fetch_from_cache_next fuel (CacheYielded es) w1).1 =
    (consume fetch_from_cache_next fuel (CacheYielded es) w2).1.
Proof.
  induction fuel as [|fuel IH]; intros es w1 w2; [reflexivity|].
  destruct es as [|e es]; [reflexivity|].
  cbn [consume].
  change (fetch_from_cache_next (CacheYielded (e :: es)) w1)
    with (Yielded e, CacheYielded es, w1).
  change (fetch_from_cache_next (CacheYielded (e :: es)) w2)
    with (Yielded e, CacheYielded es, w2).
  cbn iota beta. specialize (IH es w1 w2).
  destruct (consume fetch_from_cache_next fuel (CacheYielded es) w1)
    as [[l1 x1] w1'].
  destruct (consume fetch_from_cache_next fuel (CacheYielded es) w2)
    as [[l2 x2] w2'].
  cbn [fst] in *. congruence.
Qed.

(** What [fetch_from_cache] yields, and how it ends, depends on the
    cache alone. *)
Lemma fetch_from_cache_reads_cache w1 w2 fuel :
  cache (self w1) = cache (self w2) →
  (consume fetch_from_cache_next fuel CacheCreated w1).1 =
  (consume fetch_from_cache_next fuel CacheCreated w2).1.
Proof.
  intros Hc. destruct fuel as [|fuel]; [reflexivity|].
  cbn [consume]. rewrite !fetch_from_cache_next_created, Hc.
  destruct (cache (self w2)) as [c|]; [|reflexivity].
  destruct (retrieve c) as [|raw others]; [reflexivity|].
  destruct (entries (feedparser_parse raw)) as [|e es]; [reflexivity|].
  change (resume CacheClosed (cache_for (e :: es)) (retrieved w1))
    with (Yielded e, CacheYielded es, retrieved w1).
  change (resume CacheClosed (cache_for (e :: es)) (retrieved w2))
    with (Yielded e, CacheYielded es, retrieved w2).
  cbn iota beta.
  pose proof (cache_loop_items fuel es (retrieved w1) (retrieved w2)) as H.
  destruct (consume fetch_from_cache_next fuel (CacheYielded es) (retrieved w1))
    as [[l1 x1] w1'].
  destruct (consume fetch_from_cache_next fuel (CacheYielded es) (retrieved w2))
    as [[l2 x2] w2'].
  cbn [fst] in *. congruence.
Qed.

(** X12. A [fetch] that fails at the GET (no connection, or an error
    status) costs the cache nothing: a [fetch_from_cache] after it yields
    the entries, and ends the way, it would have without that [fetch]. *)
Theorem failed_fetch_keeps_replay w fuel fuel' :
  (∀ req, server (client_url (client (self w))) = Responded req →
          400 ≤ status_code req < 600) →
  (0 < fuel)%nat →
  (consume fetch_from_cache_next fuel' CacheCreated
     (consume fetch_next fuel FetchCreated w).2).1 =
  (consume fetch_from_cache_next fuel' CacheCreated w).1.
Proof.
  intros Hfail Hfuel. apply fetch_from_cache_reads_cache.
  destruct fuel as [|fuel]; [lia|].
  cbn [consume]. rewrite fetch_next_created.
  destruct (server (client_url (client (self w)))) as [|req] eqn:Hget;
    [reflexivity|].
  rewrite bool_decide_eq_true_2 by (apply Hfail; reflexivity).
  reflexivity.
Qed.

End Properties.

(** * The contract on the sample installation *)

#[local] Existing Instance Sample.sample_libs.

Local Open Scope list_scope.

Lemma fetch_yields_every_entry_witness :
  ∃ items w',
    iterate fetch fetch_gen_next 3
      (Sample.start Sample.feed_url (Some Sample.empty_cache)) =
      (items, Completed, w') ∧
    length items = length (entries (feedparser_parse "two")) ∧
    map item_raw_data items = entries (feedparser_parse "two") ∧
    Forall2 (λ item e, e !! "link" = Some (item_id item) ∧ item_id item ≠ "")
      items (entries (feedparser_parse "two")).
Proof.
  apply (fetch_yields_every_entry
           (Sample.start Sample.feed_url (Some Sample.empty_cache))
           {| status_code := 200; text := "two" |} 3).
  - reflexivity.
  - cbn. lia.
  - change (Forall (λ e, well_formed e = true) [Sample.e1; Sample.e2]).
    repeat constructor.
  - cbn. lia.
Defined.

(** C1 as stated fails: the feed at [Sample.broken_url] has an entry
    without 'published' in second place, and [fetch] yields the item of
    the first entry before it raises. *)
Lemma fetch_all_or_nothing_counterexample :
  ¬ (∀ (libs : Libraries) (w : World) (req : Response) (fuel : nat),
       server (client_url (client (self w))) = Responded req →
       ¬ (400 ≤ status_code req < 600) →
       (∃ e, e ∈ entries (feedparser_parse (text req)) ∧
             e !! "published" = None) →
       (length (entries (feedparser_parse (text req))) < fuel)%nat →
       ∃ err w', iterate fetch fetch_gen_next fuel w = ([], Failed err, w')).
Proof.
  intros Hclaim.
  destruct (Hclaim Sample.sample_libs
              (Sample.start Sample.broken_url None)
              {| status_code := 200; text := "broken" |} 4%nat)
    as (err & w' & Hrun).
  - reflexivity.
  - cbn. lia.
  - exists Sample.e_unpublished. split; [|reflexivity].
    change (Sample.e_unpublished
              ∈ [Sample.e1; Sample.e_unpublished; Sample.e2]).
    apply list_elem_of_further, list_elem_of_here.
  - cbn. lia.
  - vm_compute in Hrun. discriminate Hrun.
Qed.

Lemma fetch_unpublished_entry_witness :
  ∃ items err,
    iterate fetch fetch_gen_next 4 (Sample.start Sample.broken_url None) =
      (items, Failed err,
       fetched (Sample.start Sample.broken_url None)
         {| status_code := 200; text := "broken" |}) ∧
    map item_raw_data items `prefix_of` [Sample.e1] ∧
    (Forall (λ e, well_formed e = true) [Sample.e1] →
     map item_raw_data items = [Sample.e1] ∧
     decorate
       (self (fetched (Sample.start Sample.broken_url None)
                {| status_code := 200; text := "broken" |}))
       Sample.e_unpublished = Raise err).
Proof.
  apply (fetch_unpublished_entry (Sample.start Sample.broken_url None)
           {| status_code := 200; text := "broken" |} 4
           [Sample.e1] Sample.e_unpublished [Sample.e2]).
  - reflexivity.
  - cbn. lia.
  - reflexivity.
  - reflexivity.
  - cbn. lia.
Defined.

Lemma fetch_http_error_witness :
  iterate fetch fetch_gen_next 1
    (Sample.start Sample.gone_url (Some Sample.empty_cache)) =
    ([], Failed (HTTPError 404),
     refused (Sample.start Sample.gone_url (Some Sample.empty_cache))).
Proof.
  apply (fetch_http_error
           (Sample.start Sample.gone_url (Some Sample.empty_cache))
           {| status_code := 404; text := "Not Found" |} 1).
  - reflexivity.
  - cbn. lia.
  - lia.
Defined.

Lemma fetch_from_cache_without_cache_witness :
  iterate fetch_from_cache fetch_from_cache_gen_next 1
    (Sample.start Sample.feed_url None) =
    ([], Failed (CacheError "cache instance was not provided"),
     Sample.start Sample.feed_url None).
Proof.
  apply (fetch_from_cache_without_cache (Sample.start Sample.feed_url None) 1).
  - reflexivity.
  - lia.
Defined.

Lemma fetch_from_cache_empty_cache_witness :
  (iterate fetch_from_cache fetch_from_cache_gen_next 1
     (Sample.start Sample.feed_url (Some Sample.empty_cache))).1.2
    ≠ Completed.
Proof.
  apply (fetch_from_cache_empty_cache
           (Sample.start Sample.feed_url (Some Sample.empty_cache))
           Sample.empty_cache 1).
  - reflexivity.
  - reflexivity.
  - lia.
Defined.

(** C2 as stated fails: with a cache that already holds a record,
    [fetch] caches the body of the feed behind that record, and
    [fetch_from_cache] then replays the older record. *)
Lemma fetch_from_cache_replay_counterexample :
  ¬ (∀ (libs : Libraries) (w : World) (c : Cache) (req : Response)
       (fuel : nat) (items : list Item) (w1 : World),
       cache (self w) = Some c →
       server (client_url (client (self w))) = Responded req →
       ¬ (400 ≤ status_code req < 600) →
       (length (entries (feedparser_parse (text req))) < fuel)%nat →
       iterate fetch fetch_gen_next fuel w = (items, Completed, w1) →
       ∃ items' e w2,
         iterate fetch_from_cache fetch_from_cache_gen_next fuel w1 =
           (items', e, w2) ∧
         map item_id items' = map item_id items ∧
         requests_made (trace w2) = requests_made (trace w1)).
Proof.
  intros Hclaim.
  set (w := Sample.start Sample.feed_url (Some Sample.used_cache)).
  set (r := iterate fetch fetch_gen_next 3 w).
  destruct (Hclaim Sample.sample_libs w Sample.used_cache
              {| status_code := 200; text := "two" |} 3%nat r.1.1 r.2)
    as (items' & e & w2 & Hrun & Hids & _).
  - reflexivity.
  - reflexivity.
  - cbn. lia.
  - cbn. lia.
  - vm_compute. reflexivity.
  - vm_compute in Hrun. injection Hrun as <- _ _.
    vm_compute in Hids. discriminate Hids.
Qed.

Lemma fetch_from_cache_replays_fetch_witness :
  ∃ items e w1 w2,
    iterate fetch fetch_gen_next 3
      (Sample.start Sample.feed_url (Some Sample.empty_cache)) =
      (items, e, w1) ∧
    cache (self w1) = Some {| records := ["two"] |} ∧
    iterate fetch_from_cache fetch_from_cache_gen_next 3 w1 = (items, e, w2) ∧
    e ≠ Pending ∧
    trace w2 = trace w1 ++ [EvRetrieve] ∧
    requests_made (trace w2) = requests_made (trace w1).
Proof.
  apply (fetch_from_cache_replays_fetch
           (Sample.start Sample.feed_url (Some Sample.empty_cache))
           Sample.empty_cache {| status_code := 200; text := "two" |} 3 3).
  - reflexivity.
  - reflexivity.
  - reflexivity.
  - cbn. lia.
  - cbn. lia.
  - cbn. lia.
Defined.

(** ** The further properties on the sample installation *)

Lemma fetch_yields_parsed_entries_witness :
  consume fetch_next 4 FetchCreated (Sample.start Sample.broken_url None) =
    (entries (feedparser_parse "broken"), Completed,
     logged
       (fetched (Sample.start Sample.broken_url None)
          {| status_code := 200; text := "broken" |})
       (TotalEntries (length (entries (feedparser_parse "broken"))))).
Proof.
  apply (fetch_yields_parsed_entries (Sample.start Sample.broken_url None)
           {| status_code := 200; text := "broken" |} 4).
  - reflexivity.
  - cbn. lia.
  - cbn. lia.
Defined.

Lemma fetch_stopped_early_witness :
  consume fetch_next 1 FetchCreated
    (Sample.start Sample.feed_url (Some Sample.empty_cache)) =
    (take 1 (entries (feedparser_parse "two")), Pending,
     fetched (Sample.start Sample.feed_url (Some Sample.empty_cache))
       {| status_code := 200; text := "two" |}).
Proof.
  apply (fetch_stopped_early
           (Sample.start Sample.feed_url (Some Sample.empty_cache))
           {| status_code := 200; text := "two" |} 1).
  - reflexivity.
  - cbn. lia.
  - cbn. lia.
Defined.

Lemma fetch_no_connection_witness :
  consume fetch_next 1 FetchCreated
    (Sample.start "http://nowhere/" (Some Sample.used_cache)) =
    ([], Failed ConnectionError,
     refused (Sample.start "http://nowhere/" (Some Sample.used_cache))).
Proof.
  apply (fetch_no_connection
           (Sample.start "http://nowhere/" (Some Sample.used_cache)) 1).
  - reflexivity.
  - lia.
Defined.

Lemma fetch_requests_once_witness :
  List.filter is_get
    (trace (consume fetch_next 3 FetchCreated
              (Sample.start Sample.feed_url (Some Sample.empty_cache))).2) =
  List.filter is_get
    (trace (Sample.start Sample.feed_url (Some Sample.empty_cache))) ++
  [EvGet Sample.feed_url].
Proof.
  apply (fetch_requests_once
           (Sample.start Sample.feed_url (Some Sample.empty_cache))
           Sample.feed_url None (Some Sample.empty_cache) 3).
  - reflexivity.
  - lia.
Defined.

Lemma fetch_commits_before_first_yield_witness :
  cache (self (fetch_next FetchCreated
                 (restage
                    (Sample.start Sample.feed_url (Some Sample.used_cache))
                    ["stale"])).2) =
  Some {| records := records Sample.used_cache ++ ["two"] |}.
Proof.
  apply (fetch_commits_before_first_yield
           (restage (Sample.start Sample.feed_url (Some Sample.used_cache))
              ["stale"])
           Sample.used_cache {| status_code := 200; text := "two" |}).
  - reflexivity.
  - reflexivity.
  - cbn. lia.
Defined.

Lemma fetch_ignores_stale_queue_witness :
  consume fetch_next 3 FetchCreated
    (restage (Sample.start Sample.feed_url (Some Sample.empty_cache))
       ["stale"]) =
  consume fetch_next 3 FetchCreated
    (restage (Sample.start Sample.feed_url (Some Sample.empty_cache)) []).
Proof.
  apply (fetch_ignores_stale_queue
           (Sample.start Sample.feed_url (Some Sample.empty_cache))
           ["stale"] 3).
  lia.
Defined.

Lemma fetch_from_cache_first_record_witness :
  consume fetch_from_cache_next 4 CacheCreated
    (Sample.start Sample.feed_url
       (Some {| records := ["broken"; "two"] |})) =
    (entries (feedparser_parse "broken"), Completed,
     retrieved
       (Sample.start Sample.feed_url
          (Some {| records := ["broken"; "two"] |}))).
Proof.
  apply (fetch_from_cache_first_record
           (Sample.start Sample.feed_url
              (Some {| records := ["broken"; "two"] |}))
           {| records := ["broken"; "two"] |} "broken" ["two"] 4).
  - reflexivity.
  - reflexivity.
  - cbn. lia.
Defined.

Lemma metadata_id_follows_link_witness :
  metadata_id (<["link" := "http://x/9"]> Sample.e1) = Ok "http://x/9" ∧
  metadata_id (delete "link" Sample.e1) = Raise (KeyError "link") ∧
  metadata_id (<["title" := "http://x/9"]> Sample.e1) =
    metadata_id Sample.e1 ∧
  metadata_id (delete "title" Sample.e1) = metadata_id Sample.e1.
Proof.
  apply (metadata_id_follows_link Sample.e1 "title" "http://x/9").
  discriminate.
Defined.

Lemma failed_fetch_keeps_replay_witness :
  (consume fetch_from_cache_next 3 CacheCreated
     (consume fetch_next 1 FetchCreated
        (Sample.start Sample.gone_url
           (Some {| records := ["two"] |}))).2).1 =
  (consume fetch_from_cache_next 3 CacheCreated
     (Sample.start Sample.gone_url (Some {| records := ["two"] |}))).1.
Proof.
  apply (failed_fetch_keeps_replay
           (Sample.start Sample.gone_url (Some {| records := ["two"] |}))
           1 3).
  - intros req [= <-]. cbn. lia.
  - lia.
Defined.

(** ** Floats on the sample installation *)

(** 2024-01-04T00:00:00.123456-05:00 is 1704344400.123456 seconds after
    the epoch; the nearest float is 7148538534815412 * 2 ^ -22. *)
Example metadata_updated_on_west :
  metadata_updated_on Sample.e_west =
  Ok (S754_finite false 7148538534815412 (-22)).
Proof. vm_compute. reflexivity. Qed.

Example metadata_updated_on_far :
  metadata_updated_on Sample.e_far = Raise ValueError.
Proof. vm_compute. reflexivity. Qed.

(** [true_divide] against the division of the Standard Library's
    specification of binary64, on integers of every size. *)
Example true_divide_as_SFdiv :
  Forall
    (λ '(a, b),
       true_divide a b =
       Ok (SFdiv 53 1024
             (S754_finite (a <? 0)%Z (Z.to_pos (Z.abs a)) 0)
             (S754_finite false (Z.to_pos b) 0)))
    [(1704344400123456, 1000000); (-62135596800000000, 1000000);
     (253402300799999999, 1000000); (-7, 1000000); (1, 3);
     (2 ^ 53 + 1, 1); (2 ^ 53 + 3, 1); (2 ^ 54 - 1, 1);
     (1, 2 ^ 1074); (3, 2 ^ 1075); (5, 3 * 2 ^ 1070);
     (2 ^ 1024 - 2 ^ 970 - 1, 1)]%Z.
Proof. repeat constructor. Qed.
